(** * IMDb List Bulk Uploader: the line parser and the upload orchestrator

    A shallow embedding of [parseInput], [parseLine], [splitCSVLine],
    [getListId] and [processItems] of [imdb-list-bulk-uploader.user.js],
    with the properties of the design document stated over it.

    Text is a [string] whose characters are the code units below 256 of a
    JavaScript string.  The remote calls and the callbacks of the host page
    are an interface over an abstract world; every call the orchestrator
    makes is recorded in a trace. *)

From Stdlib Require Import List String Ascii Bool Arith ZArith Lia.
Import ListNotations.
Local Open Scope list_scope.
Local Open Scope string_scope.

(* ===================================================================== *)
(** * JavaScript string primitives used by the script *)
(* ===================================================================== *)

Module JS.

Definition LF : ascii := "010"%char.
Definition CR : ascii := "013"%char.
Definition quote : ascii := ascii_of_nat 34.
Definition comma : ascii := ","%char.

(** The characters [String.prototype.trim] strips (WhiteSpace and
    LineTerminator of ECMAScript) among the code units below 256:
    TAB, LF, VT, FF, CR, SPACE and NO-BREAK SPACE. *)
Definition isWhiteSpace (c : ascii) : bool :=
  let n := nat_of_ascii c in
  (((9 <=? n) && (n <=? 13)) || (n =? 32) || (n =? 160))%nat.

Fixpoint trimStart (s : string) : string :=
  match s with
  | EmptyString => EmptyString
  | String c r => if isWhiteSpace c then trimStart r else s
  end.

Fixpoint trimEnd (s : string) : string :=
  match s with
  | EmptyString => EmptyString
  | String c r =>
      match trimEnd r with
      | EmptyString => if isWhiteSpace c then EmptyString else String c EmptyString
      | r' => String c r'
      end
  end.

Definition trim (s : string) : string := trimEnd (trimStart s).

(** [toLowerCase] on one code unit below 256: A-Z, and the upper-case
    letters of Latin-1 (U+00C0-U+00DE without the multiplication sign). *)
Definition toLowerChar (c : ascii) : ascii :=
  let n := nat_of_ascii c in
  if (((65 <=? n) && (n <=? 90)) ||
      ((192 <=? n) && (n <=? 222) && negb (n =? 215)))%nat
  then ascii_of_nat (n + 32) else c.

Fixpoint toLowerCase (s : string) : string :=
  match s with
  | EmptyString => EmptyString
  | String c r => String (toLowerChar c) (toLowerCase r)
  end.

(** [s.startsWith(p)] *)
Definition startsWith (s p : string) : bool := String.prefix p s.

(** [s.split(/\r?\n/)]: scanning left to right, a CR directly followed by
    LF, or else a LF, ends the current piece; the piece after the last
    separator is always pushed. *)
Fixpoint splitLineBreaks (s : string) (current : string) : list string :=
  match s with
  | EmptyString => [current]
  | String c r =>
      if Ascii.eqb c LF then current :: splitLineBreaks r ""
      else
        match r with
        | String c' r' =>
            if Ascii.eqb c CR && Ascii.eqb c' LF
            then current :: splitLineBreaks r' ""
            else splitLineBreaks r (current ++ String c "")
        | EmptyString => splitLineBreaks r (current ++ String c "")
        end
  end.

(** JavaScript truthiness of a string: only the empty string is falsy. *)
Definition truthy (s : string) : bool := negb (s =? "").

(** [a?.b] where [a] may be null or undefined. *)
Definition optChain {A B : Type} (a : option A) (f : A -> option B) : option B :=
  match a with
  | Some x => f x
  | None => None
  end.

(** [a || b] where [a] is a string, null or undefined and [b] a string. *)
Definition orElse (a : option string) (b : string) : string :=
  match a with
  | Some s => if truthy s then s else b
  | None => b
  end.

End JS.

(* ===================================================================== *)
(** * Helpers - CSV parsing *)
(* ===================================================================== *)

Module Parser.
Import JS.

Record WorkItem : Type := mkItem { id : string; description : string }.

(** The loop of [splitCSVLine]: [line] is what remains from index [i] on;
    the look-ahead [line[i + 1]] is the head of the rest. *)
Fixpoint scanCSV (line : string) (fields : list string) (current : string)
         (inQuotes : bool) : list string :=
  match line with
  | EmptyString => (fields ++ [current])%list
  | String ch rest =>
      if Ascii.eqb ch quote then
        match inQuotes, rest with
        | true, String next rest' =>
            if Ascii.eqb next quote
            then scanCSV rest' fields (current ++ String quote "") inQuotes
            else scanCSV rest fields current (negb inQuotes)
        | _, _ => scanCSV rest fields current (negb inQuotes)
        end
      else if Ascii.eqb ch comma && negb inQuotes then
        scanCSV rest (fields ++ [current]) "" inQuotes
      else
        scanCSV rest fields (current ++ String ch "") inQuotes
  end.

Definition splitCSVLine (line : string) : list string :=
  scanCSV line [] "" false.

(** [parseLine]: [None] stands for the [null] of an invalid line. *)
Definition parseLine (line : string) : option WorkItem :=
  let fields := splitCSVLine line in
  match fields with
  | [] => None
  | f0 :: more =>
      let id := trim f0 in
      if negb (truthy id) then None
      else
        let description :=
          match more with
          | f1 :: _ => trim f1
          | [] => ""
          end in
        Some (mkItem id description)
  end.

(** [.filter((entry) => entry !== null)] *)
Fixpoint dropNull {A : Type} (l : list (option A)) : list A :=
  match l with
  | [] => []
  | Some x :: r => x :: dropNull r
  | None :: r => dropNull r
  end.

(** [raw.split(/\r?\n/).map((l) => l.trim()).filter(Boolean)] *)
Definition lines (raw : string) : list string :=
  filter truthy (map trim (splitLineBreaks raw "")).

Definition hasHeader (first : string) : bool :=
  let firstLine := toLowerCase first in
  (firstLine =? "id") || (firstLine =? "id,description") ||
  startsWith firstLine "id,".

Definition parseInput (raw : string) : list WorkItem :=
  match lines raw with
  | [] => []
  | first :: rest =>
      let dataLines := if hasHeader first then rest else first :: rest in
      dropNull (map parseLine dataLines)
  end.

End Parser.

(* ===================================================================== *)
(** * Bulk upload orchestrator *)
(* ===================================================================== *)

Module Orchestrator.
Import JS.

(** [modifiedItem.listItem]: the [text] of [titleText] or of [nameText],
    [None] where the node or its text is missing. *)
Record ListItem : Type :=
  mkListItem { titleText : option string; nameText : option string }.

(** What [addItemToList] resolves to, [json.data.addItemToList.modifiedItem]. *)
Record ModifiedItem : Type :=
  mkModified { itemId : option string; listItem : option ListItem }.

(** The [status] object of one iteration; [error = None] is [null]. *)
Record Status : Type := mkStatus {
  id : string;
  index : nat;
  ok : bool;
  error : option string;
  title : string
}.

(** Every call that leaves [processItems], with what it returned.  A
    rejected remote call is [inl message], the [message] of the thrown
    [Error]. *)
Inductive event : Type :=
| GetAborted (returned : bool)
| AddItemToList (listId constId : string)
                (returned : string + option ModifiedItem)
| UpdateDescription (listId itemId description : string)
                    (returned : string + unit)
| OnProgress (done total : nat) (status : Status)
| Sleep (ms : Z).

(** The page and the remote service, over a world [W] that holds the
    network, the clock and the variables of the page.  Awaiting a call may
    change the world in any way, a click on Cancel included. *)
Class Remote (W : Type) : Type := {
  pathname : W -> string;
  addItemToList : string -> string -> W -> (string + option ModifiedItem) * W;
  updateDescription : string -> string -> string -> W -> (string + unit) * W;
  sleep : Z -> W -> W
}.

(** The [opts] argument.  The callbacks return normally. *)
Record Opts (W : Type) : Type := mkOpts {
  useDelay : bool;
  delayMs : Z;
  onProgress : nat -> nat -> Status -> W -> W;
  getAborted : W -> bool * W
}.
Arguments useDelay {W} _.
Arguments delayMs {W} _.
Arguments onProgress {W} _ _ _ _ _.
Arguments getAborted {W} _ _.
Arguments mkOpts {W} _ _ _ _.

(** [/(ls\d+)/]: the digits that follow the first [ls] that has one. *)
Definition isDigit (c : ascii) : bool :=
  let n := nat_of_ascii c in ((48 <=? n) && (n <=? 57))%nat.

Fixpoint takeDigits (s : string) : string :=
  match s with
  | EmptyString => EmptyString
  | String c r => if isDigit c then String c (takeDigits r) else EmptyString
  end.

Fixpoint matchListId (s : string) : option string :=
  match s with
  | EmptyString => None
  | String c r =>
      match r with
      | String c' (String d r') =>
          if Ascii.eqb c "l" && Ascii.eqb c' "s" && isDigit d
          then Some ("ls" ++ takeDigits (String d r'))
          else matchListId r
      | _ => matchListId r
      end
  end.

(** A computation over the world that records the calls it makes. *)
Definition M (W A : Type) : Type := W -> A * W * list event.

Definition ret {W A : Type} (a : A) : M W A := fun w => (a, w, []).

Definition bind {W A B : Type} (m : M W A) (f : A -> M W B) : M W B :=
  fun w =>
    let '(a, w1, t1) := m w in
    let '(b, w2, t2) := f a w1 in
    (b, w2, (t1 ++ t2)%list).

Notation "x <- m ;; k" := (bind m (fun x => k))
  (at level 61, m at next level, right associativity).
Notation "m ;;; k" := (bind m (fun _ => k))
  (at level 61, right associativity).

Section Run.
Context {W : Type} {R : Remote W}.

Definition getListId (w : W) : option string := matchListId (pathname w).

Definition callGetAborted (opts : Opts W) : M W bool :=
  fun w => let (b, w') := getAborted opts w in (b, w', [GetAborted b]).

Definition callAddItemToList (listId constId : string)
  : M W (string + option ModifiedItem) :=
  fun w =>
    let (r, w') := addItemToList listId constId w in
    (r, w', [AddItemToList listId constId r]).

Definition callUpdateDescription (listId itemId description : string)
  : M W (string + unit) :=
  fun w =>
    let (r, w') := updateDescription listId itemId description w in
    (r, w', [UpdateDescription listId itemId description r]).

Definition callOnProgress (opts : Opts W) (done total : nat) (status : Status)
  : M W unit :=
  fun w => (tt, onProgress opts done total status w,
            [OnProgress done total status]).

Definition callSleep (ms : Z) : M W unit :=
  fun w => (tt, sleep ms w, [Sleep ms]).

Definition setTitle (s : Status) (t : string) : Status :=
  mkStatus (id s) (index s) (ok s) (error s) t.
Definition setOk (s : Status) (b : bool) : Status :=
  mkStatus (id s) (index s) b (error s) (title s).
Definition setError (s : Status) (message : string) : Status :=
  mkStatus (id s) (index s) (ok s) (Some message) (title s).

(** [titleNode?.titleText?.text || titleNode?.nameText?.text || item.id] *)
Definition titleOf (added : option ModifiedItem) (item : Parser.WorkItem) : string :=
  let titleNode := optChain added listItem in
  orElse (optChain titleNode titleText)
         (orElse (optChain titleNode nameText) (Parser.id item)).

(** One iteration's [status], [try] and [catch]: a rejected call leaves
    the [try] block at once, with the fields already assigned. *)
Definition tryItem (listId : string) (i : nat) (item : Parser.WorkItem)
  : M W Status :=
  let status := mkStatus (Parser.id item) i false None "" in
  r <- callAddItemToList listId (Parser.id item) ;;
  match r with
  | inl message => ret (setError status message)
  | inr added =>
      let status := setTitle status (titleOf added item) in
      if truthy (Parser.description item) then
        match optChain added itemId with
        | Some itemId =>
            if truthy itemId then
              r' <- callUpdateDescription listId itemId
                                          (Parser.description item) ;;
              match r' with
              | inl message => ret (setError status message)
              | inr _ => ret (setOk status true)
              end
            else ret (setOk status true)
        | None => ret (setOk status true)
        end
      else ret (setOk status true)
  end.

(** [if (useDelay && i < items.length - 1 && !getAborted()) await sleep(delayMs)] *)
Definition delay (opts : Opts W) (total i : nat) : M W unit :=
  if useDelay opts && (Z.of_nat i <? Z.of_nat total - 1)%Z then
    a <- callGetAborted opts ;;
    if negb a then callSleep (delayMs opts) else ret tt
  else ret tt.

(** The [for] loop from index [i]: [rest] is [items.slice(i)], [total] is
    [items.length] and [results] the array pushed so far. *)
Fixpoint loop (opts : Opts W) (listId : string) (total i : nat)
         (rest : list Parser.WorkItem) (results : list Status)
  : M W (list Status) :=
  match rest with
  | [] => ret results
  | item :: rest' =>
      a <- callGetAborted opts ;;
      if a then ret results
      else
        status <- tryItem listId i item ;;
        callOnProgress opts (i + 1) total status ;;;
        delay opts total i ;;;
        loop opts listId total (S i) rest' (results ++ [status])
  end.

(** [inl message] is the [Error] thrown by [processItems] itself. *)
Definition processItems (items : list Parser.WorkItem) (opts : Opts W)
  : M W (string + list Status) :=
  fun w =>
    match getListId w with
    | None => (inl "Could not determine list ID from URL.", w, [])
    | Some listId =>
        let '(results, w', t) :=
          loop opts listId (List.length items) 0 items [] w in
        (inr results, w', t)
    end.

(** Projections of a trace. *)
Fixpoint polls (t : list event) : list bool :=
  match t with
  | [] => []
  | GetAborted b :: t' => b :: polls t'
  | _ :: t' => polls t'
  end.

Fixpoint started (t : list event) : list string :=
  match t with
  | [] => []
  | AddItemToList _ constId _ :: t' => constId :: started t'
  | _ :: t' => started t'
  end.

Fixpoint progress (t : list event) : list (nat * nat * Status) :=
  match t with
  | [] => []
  | OnProgress done total status :: t' => (done, total, status) :: progress t'
  | _ :: t' => progress t'
  end.

(** A flag that is never reset: once a poll returned [true], the polls
    after it return [true]. *)
Fixpoint monotone (l : list bool) : bool :=
  match l with
  | [] => true
  | true :: l' => forallb (fun b => b) l'
  | false :: l' => monotone l'
  end.

(** For each item started, in order, the message its remote calls
    threw, [None] where both returned. *)
Fixpoint failures (t : list event) : list (option string) :=
  match t with
  | [] => []
  | AddItemToList _ _ (inl message) :: t' => Some message :: failures t'
  | AddItemToList _ _ (inr _) :: t' =>
      match t' with
      | UpdateDescription _ _ _ (inl message) :: t'' =>
          Some message :: failures t''
      | _ => None :: failures t'
      end
  | _ :: t' => failures t'
  end.

Definition succeededIffNoError (s : Status) : Prop :=
  ok s = true <-> error s = None.

(** [failureReason === null] *)
Definition isNone {A : Type} (o : option A) : bool :=
  match o with None => true | Some _ => false end.

(** A poll of [getAborted] that saw the cancellation. *)
Definition cancelPoll (e : event) : Prop := e = GetAborted true.

(** The four ways through the [try] block: the status it leaves and the
    calls it made. *)
Inductive attempt (listId : string) (i : nat) (item : Parser.WorkItem)
  : Status -> list event -> Prop :=
| addRejected (message : string) :
    attempt listId i item
      (mkStatus (Parser.id item) i false (Some message) "")
      [AddItemToList listId (Parser.id item) (inl message)]
| addedOnly (added : option ModifiedItem) :
    attempt listId i item
      (mkStatus (Parser.id item) i true None (titleOf added item))
      [AddItemToList listId (Parser.id item) (inr added)]
| annotated (added : option ModifiedItem) (remoteId : string) :
    attempt listId i item
      (mkStatus (Parser.id item) i true None (titleOf added item))
      [AddItemToList listId (Parser.id item) (inr added);
       UpdateDescription listId remoteId (Parser.description item) (inr tt)]
| annotationRejected (added : option ModifiedItem) (remoteId message : string) :
    attempt listId i item
      (mkStatus (Parser.id item) i false (Some message) (titleOf added item))
      [AddItemToList listId (Parser.id item) (inr added);
       UpdateDescription listId remoteId (Parser.description item)
                         (inl message)].

(** The calls of the delay step. *)
Inductive pause (ms : Z) : list event -> Prop :=
| noPause : pause ms []
| pauseSkipped : pause ms [GetAborted true]
| paused : pause ms [GetAborted false; Sleep ms].

(** The loop unrolled from index [i] over [rest]: the statuses pushed
    and the calls made. *)
Inductive iterations (listId : string) (total : nat) (ms : Z)
  : nat -> list Parser.WorkItem -> list Status -> list event -> Prop :=
| exhausted (i : nat) : iterations listId total ms i [] [] []
| broken (i : nat) (item : Parser.WorkItem) (rest : list Parser.WorkItem) :
    iterations listId total ms i (item :: rest) [] [GetAborted true]
| iterated (i : nat) (item : Parser.WorkItem) (rest : list Parser.WorkItem)
           (status : Status) (t1 t3 : list event)
           (new : list Status) (t4 : list event) :
    attempt listId i item status t1 ->
    pause ms t3 ->
    iterations listId total ms (S i) rest new t4 ->
    iterations listId total ms i (item :: rest) (status :: new)
      (GetAborted false ::
         t1 ++ OnProgress (i + 1) total status :: t3 ++ t4).

End Run.

End Orchestrator.

(* ===================================================================== *)
(** * The Start Upload handler of the page *)
(* ===================================================================== *)

Module Page.
Import Orchestrator.

(** The variables of [injectUI] the run depends on: the [aborted] flag the
    Cancel button sets, and the rendering done by the [onProgress]
    closure. *)
Class Host (W : Type) : Type := {
  aborted : W -> bool;
  render : nat -> nat -> Status -> W -> W
}.

(** What the handler derives from the returned [results]: the two counts
    and, from [aborted], whether the run is reported as cancelled. *)
Record Summary : Type := mkSummary {
  results : list Status;
  succeeded : nat;
  failed : nat;
  cancelled : bool
}.

Section Handler.
Context {W : Type} {R : Remote W} {H : Host W}.

Definition hostOpts (useDelay : bool) (delayMs : Z) : Opts W :=
  mkOpts useDelay delayMs render (fun w => (aborted w, w)).

(** The [opts] the handler builds and its [try] block, which it reaches
    with a non-empty batch.  [None] is the [catch] branch, which logs
    "Unexpected error". *)
Definition runUpload (items : list Parser.WorkItem) (useDelay : bool)
           (delayMs : Z) : M W (option Summary) :=
  fun w =>
    let '(r, w', t) := processItems items (hostOpts useDelay delayMs) w in
    match r with
    | inr results =>
        (Some (mkSummary results
                 (List.length (filter ok results))
                 (List.length (filter (fun r => negb (ok r)) results))
                 (aborted w')), w', t)
    | inl _ => (None, w', t)
    end.
End Handler.

End Page.

(* ===================================================================== *)
(** * The design document's wording, as definitions of its own *)
(* ===================================================================== *)

Module Worded.
Import JS.

(** "case-insensitively equals": character by character, letters compared
    without their case. *)
Fixpoint ciEqual (a b : string) : bool :=
  match a, b with
  | EmptyString, EmptyString => true
  | String x a', String y b' =>
      Ascii.eqb (toLowerChar x) (toLowerChar y) && ciEqual a' b'
  | _, _ => false
  end.

(** "case-insensitively starts with" *)
Fixpoint ciStartsWith (s p : string) : bool :=
  match p, s with
  | EmptyString, _ => true
  | String y p', String x s' =>
      Ascii.eqb (toLowerChar x) (toLowerChar y) && ciStartsWith s' p'
  | String _ _, EmptyString => false
  end.

Definition isHeaderLine (line : string) : bool :=
  ciEqual line "id" || ciEqual line "id,description" ||
  ciStartsWith line "id,".

(** The pieces of [s] between the occurrences of [sep]. *)
Fixpoint splitOn (sep : ascii) (s : string) : list string :=
  match s with
  | EmptyString => [EmptyString]
  | String c r =>
      if Ascii.eqb c sep then EmptyString :: splitOn sep r
      else
        match splitOn sep r with
        | p :: ps => String c p :: ps
        | [] => [String c EmptyString]
        end
  end.

(** "any line-ending style": LF, CRLF and a lone CR each end a line. *)
Fixpoint splitAnyEnding (s : string) (current : string) : list string :=
  match s with
  | EmptyString => [current]
  | String c r =>
      if Ascii.eqb c LF then current :: splitAnyEnding r ""
      else if Ascii.eqb c CR then
        match r with
        | String c' r' =>
            if Ascii.eqb c' LF then current :: splitAnyEnding r' ""
            else current :: splitAnyEnding r ""
        | EmptyString => current :: splitAnyEnding r ""
        end
      else splitAnyEnding r (current ++ String c "")
  end.

Definition linesAnyEnding (raw : string) : list string :=
  filter truthy (map trim (splitAnyEnding raw "")).

(** Writing a row of fields the way the template file does: a field is
    written bare, or between double quotes with every double quote of its
    text doubled. *)
Inductive cell : Type :=
| Quoted (text : string)
| Bare (text : string).

Definition cellText (c : cell) : string :=
  match c with Quoted t => t | Bare t => t end.

Fixpoint escapeQuotes (s : string) : string :=
  match s with
  | EmptyString => EmptyString
  | String c r =>
      if Ascii.eqb c quote then String quote (String quote (escapeQuotes r))
      else String c (escapeQuotes r)
  end.

Definition written (c : cell) : string :=
  match c with
  | Quoted t => String quote (escapeQuotes t ++ String quote "")
  | Bare t => t
  end.

(** A bare field holds neither a comma nor a double quote. *)
Fixpoint isBare (s : string) : bool :=
  match s with
  | EmptyString => true
  | String c r => negb (Ascii.eqb c quote) && negb (Ascii.eqb c comma) && isBare r
  end.

Definition wellFormed (c : cell) : bool :=
  match c with Quoted _ => true | Bare t => isBare t end.

(** What may follow a closing double quote: the end of the line or a
    comma, not another double quote. *)
Definition startsWithQuote (s : string) : bool :=
  match s with
  | String c _ => Ascii.eqb c quote
  | EmptyString => false
  end.

Fixpoint writeRow (c : cell) (cs : list cell) : string :=
  match cs with
  | [] => written c
  | c' :: cs' => written c ++ String comma (writeRow c' cs')
  end.

End Worded.

(* ===================================================================== *)
(** * A scripted page and service, to run the definitions on *)
(* ===================================================================== *)

Module Scenario.
Import JS Orchestrator Page.

Definition nl : string := String LF "".
Definition dq : string := String quote "".

(** The page location, the [aborted] variable, the number of remote calls
    answered so far, the call during which the user clicks Cancel (if
    any), and what the progress text showed. *)
Record World : Type := mkWorld {
  location : string;
  cancelClicked : bool;
  calls : nat;
  clickDuring : option nat;
  shown : list (nat * nat)
}.

Definition answered (w : World) : World :=
  let n := S (calls w) in
  mkWorld (location w)
          (cancelClicked w ||
           match clickDuring w with Some k => (k =? n)%nat | None => false end)
          n (clickDuring w) (shown w).

(** The service knows every title but [tt0000000] and refuses the
    description ["[b"]. *)
#[export] Instance service : Remote World := {|
  pathname := location;
  addItemToList := fun _ constId w =>
    (if constId =? "tt0000000" then inl "Title not found"
     else inr (Some (mkModified (Some ("li-" ++ constId))
                       (Some (mkListItem (Some ("Title " ++ constId)) None)))),
     answered w);
  updateDescription := fun _ _ description w =>
    (if description =? "[b" then inl "Invalid markup" else inr tt,
     answered w);
  sleep := fun _ w => w
|}.

#[export] Instance page : Host World := {|
  aborted := cancelClicked;
  render := fun done total _ w =>
    mkWorld (location w) (cancelClicked w) (calls w) (clickDuring w)
            (shown w ++ [(done, total)])
|}.

Definition editPage (click : option nat) : World :=
  mkWorld "/list/ls123456789/edit/" false 0 click [].

Definition otherPage : World := mkWorld "/chart/top/" false 0 None [].

Definition batch : list Parser.WorkItem :=
  [ Parser.mkItem "tt0111161" "A great movie";
    Parser.mkItem "tt0000000" "";
    Parser.mkItem "tt0068646" "[b";
    Parser.mkItem "tt0468569" "" ].

(** The run in which the user clicks Cancel while the second item is
    being added; its results, its trace, and the trace around the poll
    that sees the click. *)
Definition cancelledRun : (string + list Status) * World * list event :=
  processItems batch (hostOpts true 5000) (editPage (Some 3)).

Definition cancelledResults : list Status :=
  match fst (fst cancelledRun) with
  | inr results => results
  | inl _ => []
  end.

Definition beforeCancel : list event := firstn 9 (snd cancelledRun).
Definition afterCancel : list event := skipn 10 (snd cancelledRun).

(** The worlds of a visit during which Cancel is never clicked. *)
Definition neverClicked (w : World) : Prop :=
  clickDuring w = None /\ cancelClicked w = false.

End Scenario.

(* ===================================================================== *)
(** * Vocabulary for the further properties *)
(* ===================================================================== *)

Module Text.
Import JS.

Definition firstIsSpace (s : string) : bool :=
  match s with
  | String c _ => isWhiteSpace c
  | EmptyString => false
  end.

Fixpoint lastIsSpace (s : string) : bool :=
  match s with
  | EmptyString => false
  | String c EmptyString => isWhiteSpace c
  | String _ r => lastIsSpace r
  end.

Fixpoint allWhiteSpace (s : string) : bool :=
  match s with
  | EmptyString => true
  | String c r => isWhiteSpace c && allWhiteSpace r
  end.

(** [s.includes(c)] for one character. *)
Fixpoint contains (c : ascii) (s : string) : bool :=
  match s with
  | EmptyString => false
  | String x r => Ascii.eqb x c || contains c r
  end.

Fixpoint allDigits (s : string) : bool :=
  match s with
  | EmptyString => true
  | String c r => Orchestrator.isDigit c && allDigits r
  end.

Definition startsWithDigit (s : string) : bool :=
  match s with
  | String c _ => Orchestrator.isDigit c
  | EmptyString => false
  end.

End Text.

(** The layout of the template file of [downloadTemplate]: the header line,
    then one line per item, the id bare and the description between double
    quotes. *)
Module Template.
Import JS Parser Worded Text.

Definition rowOf (item : WorkItem) : string :=
  writeRow (Bare (id item)) [Quoted (description item)].

Fixpoint rowsText (items : list WorkItem) : string :=
  match items with
  | [] => EmptyString
  | item :: rest => String LF (rowOf item ++ rowsText rest)
  end.

Definition fileOf (items : list WorkItem) : string :=
  "id,description" ++ rowsText items.

(** An item such a file can hold: a non-empty id without comma or double
    quote, id and description without surrounding white space and without
    a line feed. *)
Definition writable (item : WorkItem) : Prop :=
  id item <> "" /\ isBare (id item) = true /\
  trim (id item) = id item /\ contains LF (id item) = false /\
  trim (description item) = description item /\
  contains LF (description item) = false.

End Template.

Module Shape.
Import JS Orchestrator.

(** Further projections of a trace. *)
Fixpoint sleeps (t : list event) : list Z :=
  match t with
  | [] => []
  | Sleep ms :: t' => ms :: sleeps t'
  | _ :: t' => sleeps t'
  end.

Fixpoint updates (t : list event) : list (string * string) :=
  match t with
  | [] => []
  | UpdateDescription _ itemId description _ :: t' =>
      (itemId, description) :: updates t'
  | _ :: t' => updates t'
  end.

(** The list id a remote call was made with. *)
Definition calledList (e : event) : option string :=
  match e with
  | AddItemToList listId _ _ => Some listId
  | UpdateDescription listId _ _ _ => Some listId
  | _ => None
  end.

(** [e] is no remote call, or one made with [listId]. *)
Definition onList (listId : string) (e : event) : Prop :=
  forall l, calledList e = Some l -> l = listId.

Definition isUpdate (e : event) : bool :=
  match e with
  | UpdateDescription _ _ _ _ => true
  | _ => false
  end.

Section Unrolled.
Context {W : Type} {R : Remote W}.

(** What one [try] block can do, and what one delay step can do. *)
Definition tried (listId : string) (i : nat) (item : Parser.WorkItem)
           (status : Status) (t : list event) : Prop :=
  exists w w', tryItem listId i item w = (status, w', t).

Definition delayed (opts : Opts W) (total i : nat) (t : list event) : Prop :=
  exists w w', delay opts total i w = (tt, w', t).

(** The loop unrolled, each step being a step of the code. *)
Inductive unrolled (opts : Opts W) (listId : string) (total : nat)
  : nat -> list Parser.WorkItem -> list Status -> list event -> Prop :=
| stopAtEnd (i : nat) : unrolled opts listId total i [] [] []
| stopAtPoll (i : nat) (item : Parser.WorkItem) (rest : list Parser.WorkItem) :
    unrolled opts listId total i (item :: rest) [] [GetAborted true]
| step (i : nat) (item : Parser.WorkItem) (rest : list Parser.WorkItem)
       (status : Status) (t1 t3 : list event)
       (new : list Status) (t4 : list event) :
    tried listId i item status t1 ->
    delayed opts total i t3 ->
    unrolled opts listId total (S i) rest new t4 ->
    unrolled opts listId total i (item :: rest) (status :: new)
      (GetAborted false ::
         t1 ++ OnProgress (i + 1) total status :: t3 ++ t4).

End Unrolled.

End Shape.

(** The [cookie] helper of [buildHeaders]: the first group of the first
    match in [document.cookie] of the pattern made of the start of the text
    or a semicolon and white space, then [name], an equals sign and the
    group of every character up to the next semicolon; the empty string
    when there is no match.  [name] is a name without regular-expression
    operators, as the two names the script looks up are. *)
Module Headers.
Import JS.

Definition semicolon : ascii := ";"%char.
Definition equals : ascii := "="%char.

(** The group: every character that is no semicolon, as many as there
    are. *)
Fixpoint untilSemicolon (s : string) : string :=
  match s with
  | EmptyString => EmptyString
  | String c r =>
      if Ascii.eqb c semicolon then EmptyString else String c (untilSemicolon r)
  end.

(** What is left of [s] after the literal [p], if [s] begins with it. *)
Fixpoint stripPrefix (p s : string) : option string :=
  match p with
  | EmptyString => Some s
  | String x p' =>
      match s with
      | String y s' => if Ascii.eqb x y then stripPrefix p' s' else None
      | EmptyString => None
      end
  end.

(** [name], an equals sign and the group, at the head of [s]: the
    captured group. *)
Definition nameHere (name s : string) : option string :=
  match stripPrefix (name ++ String equals "") s with
  | Some r => Some (untilSemicolon r)
  | None => None
  end.

(** White space, then [name], an equals sign and the group, at the head
    of [s]: the longest run of white space is tried first, then the shorter
    ones. *)
Fixpoint afterSpaces (name s : string) : option string :=
  match s with
  | String c r =>
      if isWhiteSpace c then
        match afterSpaces name r with
        | Some v => Some v
        | None => nameHere name s
        end
      else nameHere name s
  | EmptyString => nameHere name s
  end.

(** The first start position, from the left, at which the pattern matches:
    [^] holds at the start of the text only ([atStart]), the other
    alternative begins with a semicolon. *)
Fixpoint matchCookie (atStart : bool) (name s : string) : option string :=
  let first :=
    if atStart then nameHere name s else None in
  let here :=
    match first with
    | Some v => Some v
    | None =>
        match s with
        | String c r => if Ascii.eqb c semicolon then afterSpaces name r else None
        | EmptyString => None
        end
    end in
  match here with
  | Some v => Some v
  | None =>
      match s with
      | String _ r => matchCookie false name r
      | EmptyString => None
      end
  end.

Definition cookie (name jar : string) : string :=
  match matchCookie true name jar with
  | Some v => v
  | None => EmptyString
  end.

(** [document.cookie] as the browser writes it: [key=value] pairs joined
    by a semicolon and a space. *)
Definition pairText (p : string * string) : string :=
  fst p ++ String equals (snd p).

Fixpoint morePairs (pairs : list (string * string)) : string :=
  match pairs with
  | [] => EmptyString
  | p :: rest => String semicolon (String " " (pairText p ++ morePairs rest))
  end.

Definition jarOf (pairs : list (string * string)) : string :=
  match pairs with
  | [] => EmptyString
  | p :: rest => pairText p ++ morePairs rest
  end.

(** The value of the first pair whose key is [name]. *)
Fixpoint valueOf (name : string) (pairs : list (string * string)) : option string :=
  match pairs with
  | [] => None
  | (k, v) :: rest => if k =? name then Some v else valueOf name rest
  end.

Fixpoint hasSpace (s : string) : bool :=
  match s with
  | EmptyString => false
  | String c r => isWhiteSpace c || hasSpace r
  end.

(** A key holds no [=], no [;] and no white space; a value holds no [;]. *)
Definition cookiePair (p : string * string) : Prop :=
  Text.contains equals (fst p) = false /\
  Text.contains semicolon (fst p) = false /\
  hasSpace (fst p) = false /\
  Text.contains semicolon (snd p) = false.

End Headers.

(** Further runs on the scripted page. *)
Module Visits.
Import JS Orchestrator Page Scenario.

(** The whole batch uploaded with a delay, Cancel never clicked. *)
Definition fullRun : (string + list Status) * World * list event :=
  processItems batch (hostOpts true 5000) (editPage None).

Definition fullResults : list Status :=
  match fst (fst fullRun) with
  | inr results => results
  | inl _ => []
  end.

(** The upload during which Cancel is clicked while the second item is
    being added, as the handler of the page sees it. *)
Definition cancelledUpload : option Summary * World * list event :=
  runUpload batch true 5000 (editPage (Some 3)).

Definition cancelledSummary : Summary :=
  match fst (fst cancelledUpload) with
  | Some summary => summary
  | None => mkSummary [] 0 0 false
  end.

(** A batch that comes from pasted text. *)
Definition pasted : list Parser.WorkItem :=
  Parser.parseInput
    ("id,description" ++ String LF ("tt0111161,fine" ++ String LF "nm0000151")).

Definition pastedRun : (string + list Status) * World * list event :=
  processItems pasted (hostOpts false 0) (editPage None).

Definition pastedResults : list Status :=
  match fst (fst pastedRun) with
  | inr results => results
  | inl _ => []
  end.

End Visits.

(* ===================================================================== *)
(** * Properties of the line parser *)
(* ===================================================================== *)

Section ParserFacts.
Import JS Parser Worded.

Lemma append_empty_r (s : string) : s ++ "" = s.
Proof. induction s as [|c s IH]; simpl; [reflexivity | now rewrite IH]. Qed.

Lemma append_assoc (a b c : string) : (a ++ b) ++ c = a ++ (b ++ c).
Proof. induction a as [|x a IH]; simpl; [reflexivity | now rewrite IH]. Qed.

Lemma append_snoc (a : string) (x : ascii) (b : string) :
  (a ++ String x "") ++ b = a ++ String x b.
Proof. now rewrite append_assoc. Qed.

Lemma truthy_true (s : string) : truthy s = true <-> s <> "".
Proof.
  unfold truthy. destruct (String.eqb_spec s ""); simpl; split; congruence.
Qed.

(** ** Trimming *)

Lemma trimEnd_CR (s : string) : trimEnd (s ++ String CR "") = trimEnd s.
Proof.
  induction s as [|c s IH]; simpl.
  - reflexivity.
  - now rewrite IH.
Qed.

Lemma trim_CR (s : string) : trim (s ++ String CR "") = trim s.
Proof.
  unfold trim. induction s as [|c s IH]; simpl.
  - reflexivity.
  - destruct (isWhiteSpace c).
    + exact IH.
    + change (String c (s ++ String CR "")) with (String c s ++ String CR "").
      apply trimEnd_CR.
Qed.

(** ** Parsing one line *)

Lemma parseLine_Some (line : string) (item : WorkItem) :
  parseLine line = Some item -> Parser.id item <> "".
Proof.
  unfold parseLine. destruct (splitCSVLine line) as [|f0 more]; [discriminate|].
  destruct (truthy (trim f0)) eqn:E; simpl; [|discriminate].
  intros [= <-]. simpl. now apply truthy_true.
Qed.

Lemma dropNull_In {A : Type} (l : list (option A)) (x : A) :
  In x (dropNull l) <-> In (Some x) l.
Proof.
  induction l as [|[y|] l IH]; simpl.
  - tauto.
  - rewrite IH. split; intros [E|E]; auto; left; congruence.
  - rewrite IH. split; [auto | intros [E|E]; [discriminate | exact E]].
Qed.

Lemma dropNull_app {A : Type} (l1 l2 : list (option A)) :
  dropNull (l1 ++ l2) = (dropNull l1 ++ dropNull l2)%list.
Proof.
  induction l1 as [|[y|] l1 IH]; simpl; [reflexivity | now rewrite IH | exact IH].
Qed.

Lemma dropNull_parseLine_ids (ls : list string) :
  Forall (fun item => Parser.id item <> "") (dropNull (map parseLine ls)).
Proof.
  apply Forall_forall. intros item Hin.
  apply dropNull_In in Hin. apply in_map_iff in Hin.
  destruct Hin as [line [E _]]. now apply parseLine_Some with line.
Qed.

(** C6.  Every work item [parseInput] returns has a non-empty [id]; a line
    whose first field trims to the empty string is turned into [null] by
    [parseLine] and so adds nothing to the items of the lines around it. *)
Theorem parse_ids_nonempty (raw line : string) :
  Forall (fun item => Parser.id item <> "") (parseInput raw) /\
  (trim (hd "" (splitCSVLine line)) = "" ->
   parseLine line = None /\
   forall before after : list string,
     dropNull (map parseLine (before ++ line :: after)) =
     (dropNull (map parseLine before) ++ dropNull (map parseLine after))%list).
Proof.
  split.
  - unfold parseInput. destruct (lines raw) as [|first rest]; [constructor|].
    apply dropNull_parseLine_ids.
  - intros Hblank.
    assert (Hnull : parseLine line = None).
    { unfold parseLine. destruct (splitCSVLine line) as [|f0 more]; [reflexivity|].
      simpl in Hblank. rewrite Hblank. reflexivity. }
    split; [exact Hnull|].
    intros before after. rewrite map_app, dropNull_app. simpl.
    now rewrite Hnull.
Qed.

Lemma parse_ids_nonempty_witness :
  Forall (fun item => Parser.id item <> "")
         (parseInput ("id" ++ Scenario.nl ++ " , x" ++ Scenario.nl ++ "tt9")) /\
  parseLine " , x" = None.
Proof.
  destruct (parse_ids_nonempty ("id" ++ Scenario.nl ++ " , x" ++ Scenario.nl ++ "tt9")
                               " , x") as [Hids Hdrop].
  split; [exact Hids|].
  apply Hdrop. reflexivity.
Defined.

(** ** Header detection *)

Lemma ciEqual_toLowerCase (a b : string) :
  ciEqual a b = (toLowerCase a =? toLowerCase b).
Proof.
  revert b. induction a as [|x a IH]; intros [|y b]; simpl; try reflexivity.
  now rewrite IH.
Qed.

Lemma ciStartsWith_toLowerCase (s p : string) :
  ciStartsWith s p = startsWith (toLowerCase s) (toLowerCase p).
Proof.
  unfold startsWith. revert s.
  induction p as [|y p IH]; intros [|x s]; simpl; try reflexivity.
  rewrite IH. destruct (ascii_dec (toLowerChar y) (toLowerChar x)) as [E|E].
  - rewrite E, Ascii.eqb_refl. reflexivity.
  - destruct (Ascii.eqb_spec (toLowerChar x) (toLowerChar y)); [congruence | reflexivity].
Qed.

Lemma hasHeader_worded (first : string) : hasHeader first = isHeaderLine first.
Proof.
  unfold hasHeader, isHeaderLine.
  now rewrite !ciEqual_toLowerCase, ciStartsWith_toLowerCase.
Qed.

(** C7.  [parseInput] discards the first surviving line exactly when it
    is, letter case apart, "id" or "id,description" or begins with "id,";
    every other surviving line is parsed as data. *)
Theorem header_line_discarded (raw : string) :
  parseInput raw =
  match lines raw with
  | [] => []
  | first :: rest =>
      dropNull (map parseLine (if isHeaderLine first then rest else first :: rest))
  end.
Proof.
  unfold parseInput. destruct (lines raw) as [|first rest]; [reflexivity|].
  now rewrite hasHeader_worded.
Qed.

(** The three header cases the design document lists. *)
Example header_cases :
  parseInput ("id,description" ++ Scenario.nl ++ "tt1," ++ Scenario.dq ++ "d" ++ Scenario.dq)
    = [mkItem "tt1" "d"] /\
  parseInput ("id" ++ Scenario.nl ++ "tt1," ++ Scenario.dq ++ "d" ++ Scenario.dq)
    = [mkItem "tt1" "d"] /\
  parseInput ("tt1," ++ Scenario.dq ++ "d" ++ Scenario.dq) = [mkItem "tt1" "d"] /\
  parseInput "tt9" = [mkItem "tt9" ""].
Proof. repeat split; reflexivity. Qed.

(** ** Splitting a line into fields *)

Lemma scanCSV_bare (p rest : string) (fields : list string) (current : string)
      (inQuotes : bool) :
  isBare p = true ->
  scanCSV (p ++ rest) fields current inQuotes =
  scanCSV rest fields (current ++ p) inQuotes.
Proof.
  revert current. induction p as [|c p IH]; intros current Hbare.
  - now rewrite append_empty_r.
  - simpl in Hbare. apply andb_prop in Hbare as [Hc Hp].
    apply andb_prop in Hc as [Hq Hk].
    apply negb_true_iff in Hq. apply negb_true_iff in Hk.
    simpl. rewrite Hq, Hk. simpl.
    rewrite IH by assumption. now rewrite append_snoc.
Qed.

Lemma scanCSV_escaped (t rest : string) (fields : list string) (current : string) :
  startsWithQuote rest = false ->
  scanCSV (escapeQuotes t ++ String quote rest) fields current true =
  scanCSV rest fields (current ++ t) false.
Proof.
  intros Hrest. revert current. induction t as [|c t IH]; intros current.
  - rewrite append_empty_r. simpl.
    destruct rest as [|next rest']; [reflexivity|].
    simpl in Hrest. now rewrite Hrest.
  - simpl. destruct (Ascii.eqb_spec c quote) as [->|Hc].
    + simpl. rewrite IH. now rewrite append_snoc.
    + simpl. apply Ascii.eqb_neq in Hc. rewrite Hc. simpl.
      rewrite andb_false_r. rewrite IH. now rewrite append_snoc.
Qed.

Lemma scanCSV_written (c : cell) (rest : string) (fields : list string)
      (current : string) :
  wellFormed c = true -> startsWithQuote rest = false ->
  scanCSV (written c ++ rest) fields current false =
  scanCSV rest fields (current ++ cellText c) false.
Proof.
  intros Hwf Hrest. destruct c as [t|t]; simpl in *.
  - rewrite append_assoc. simpl. now apply scanCSV_escaped.
  - now apply scanCSV_bare.
Qed.

Lemma scanCSV_writeRow (cs : list cell) (c : cell) (fields : list string)
      (current : string) :
  forallb wellFormed (c :: cs) = true ->
  scanCSV (writeRow c cs) fields current false =
  (fields ++ (current ++ cellText c)%string :: map cellText cs)%list.
Proof.
  revert c fields current. induction cs as [|c' cs IH]; intros c fields current Hwf.
  - simpl in *. rewrite andb_true_r in Hwf.
    rewrite <- (append_empty_r (written c)).
    rewrite scanCSV_written by (assumption || reflexivity).
    reflexivity.
  - cbn [forallb] in Hwf. apply andb_prop in Hwf as [Hc Hcs].
    cbn [writeRow]. rewrite scanCSV_written by (assumption || reflexivity).
    cbn [scanCSV]. unfold comma at 1.
    replace (Ascii.eqb comma quote) with false by reflexivity.
    change (Ascii.eqb "," comma) with true. cbn [andb negb].
    rewrite IH by assumption. cbn [map app]. rewrite <- app_assoc. reflexivity.
Qed.

(** C8.  A row written with some fields between double quotes, their
    double quotes doubled, splits back into exactly the texts of its
    fields, whatever commas and double quotes the quoted texts hold; and
    the line [tt1,"a, b"] parses to the single item [tt1] with annotation
    [a, b]. *)
Theorem quoted_fields_split (c : cell) (cs : list cell) :
  forallb wellFormed (c :: cs) = true ->
  splitCSVLine (writeRow c cs) = map cellText (c :: cs) /\
  parseInput ("tt1," ++ String quote ("a, b" ++ String quote "")) =
    [mkItem "tt1" "a, b"].
Proof.
  intros Hwf. split; [|reflexivity].
  unfold splitCSVLine. rewrite scanCSV_writeRow by assumption. reflexivity.
Qed.

Lemma quoted_fields_split_witness :
  splitCSVLine ("tt1," ++ String quote ("say " ++ String quote (String quote
                  ("hi" ++ String quote (String quote (", twice" ++ String quote ""))))))
    = ["tt1"; "say " ++ String quote ("hi" ++ String quote ", twice")].
Proof.
  exact (proj1 (quoted_fields_split
                  (Bare "tt1")
                  [Quoted ("say " ++ String quote ("hi" ++ String quote ", twice"))]
                  eq_refl)).
Defined.

(** ** Splitting the text into lines *)

Lemma splitOn_cons (sep : ascii) (s : string) :
  exists p ps, splitOn sep s = p :: ps.
Proof.
  induction s as [|c s [p [ps IH]]]; simpl.
  - now exists "", [].
  - destruct (Ascii.eqb c sep); [now exists "", (splitOn sep s)|].
    rewrite IH. now exists (String c p), ps.
Qed.

Lemma splitOn_app (sep : ascii) (a b : string) :
  splitOn sep (a ++ String sep b) = (splitOn sep a ++ splitOn sep b)%list.
Proof.
  induction a as [|c a IH]; simpl.
  - now rewrite Ascii.eqb_refl.
  - destruct (Ascii.eqb c sep); [now rewrite IH|].
    rewrite IH. destruct (splitOn_cons sep a) as [p [ps ->]]. reflexivity.
Qed.

Lemma splitOn_CR_trimmed (a : string) :
  map trim (splitOn LF (a ++ String CR "")) = map trim (splitOn LF a).
Proof.
  assert (G : forall current,
    match splitOn LF (a ++ String CR ""), splitOn LF a with
    | p :: ps, p' :: ps' =>
        trim (current ++ p) = trim (current ++ p') /\ map trim ps = map trim ps'
    | _, _ => False
    end).
  { induction a as [|c a IH]; intros current; simpl.
    - split; [|reflexivity]. rewrite append_empty_r. apply trim_CR.
    - destruct (Ascii.eqb c LF).
      + split; [reflexivity|].
        specialize (IH ""). destruct (splitOn LF (a ++ String CR "")) as [|p ps];
          destruct (splitOn LF a) as [|p' ps']; try contradiction.
        simpl in *. destruct IH as [-> ->]. reflexivity.
      + specialize (IH (current ++ String c "")).
        destruct (splitOn LF (a ++ String CR "")) as [|p ps];
          destruct (splitOn LF a) as [|p' ps']; try contradiction.
        now rewrite !append_snoc in IH. }
  specialize (G "").
  destruct (splitOn LF (a ++ String CR "")) as [|p ps];
    destruct (splitOn LF a) as [|p' ps']; try contradiction.
  simpl in *. destruct G as [-> ->]. reflexivity.
Qed.

Lemma splitLineBreaks_trimmed (s current : string) :
  map trim (splitLineBreaks s current) =
  match splitOn LF s with
  | p :: ps => trim (current ++ p) :: map trim ps
  | [] => []
  end.
Proof.
  revert current. induction s as [|c s IH]; intros current.
  - simpl. now rewrite append_empty_r.
  - cbn [splitLineBreaks splitOn].
    destruct (Ascii.eqb c LF) eqn:Ec.
    + cbn [map]. rewrite IH, append_empty_r.
      destruct (splitOn_cons LF s) as [p [ps ->]]. reflexivity.
    + destruct s as [|c' s'].
      * rewrite IH. simpl. now rewrite append_snoc.
      * destruct (Ascii.eqb c CR && Ascii.eqb c' LF) eqn:Esep.
        -- apply andb_prop in Esep as [Ecr Elf].
           apply Ascii.eqb_eq in Ecr. apply Ascii.eqb_eq in Elf. subst c c'.
           specialize (IH "").
           cbn [splitLineBreaks splitOn] in IH |- *.
           rewrite Ascii.eqb_refl in IH |- *.
           cbn [map] in IH |- *. injection IH as IH. rewrite IH.
           rewrite trim_CR.
           destruct (splitOn_cons LF s') as [p [ps ->]]. reflexivity.
        -- rewrite IH.
           destruct (splitOn_cons LF (String c' s')) as [p [ps ->]].
           now rewrite append_snoc.
Qed.

Lemma lines_splitOn (raw : string) :
  lines raw = filter truthy (map trim (splitOn LF raw)).
Proof.
  unfold lines. rewrite splitLineBreaks_trimmed.
  destruct (splitOn_cons LF raw) as [p [ps ->]]. reflexivity.
Qed.

Lemma lines_LF (a b : string) :
  lines (a ++ String LF b) = (lines a ++ lines b)%list.
Proof.
  rewrite !lines_splitOn, splitOn_app, map_app. apply filter_app.
Qed.

(** C9, as the code has it.  [parseInput] cuts its text at every LF; the
    pieces are trimmed, which removes the CR of a CRLF, the blank ones are
    discarded and the others keep their order.  So LF and CRLF both
    separate lines: the lines of [a LF b] and of [a CR LF b] are the lines
    of [a] followed by the lines of [b]. *)
Theorem lines_cut_at_LF (raw a b : string) :
  lines raw = filter truthy (map trim (splitOn LF raw)) /\
  lines (a ++ String LF b) = (lines a ++ lines b)%list /\
  lines (a ++ String CR (String LF b)) = (lines a ++ lines b)%list.
Proof.
  split; [apply lines_splitOn|]. split; [apply lines_LF|].
  rewrite <- append_snoc, lines_LF. f_equal.
  now rewrite !lines_splitOn, splitOn_CR_trimmed.
Qed.

(** C9, as stated, fails on a lone CR: [tt1 CR tt2] is one line for
    [parseInput], and one work item, where a splitter for any line ending
    gives two lines. *)
Lemma lone_CR_keeps_one_line :
  lines ("tt1" ++ String CR "tt2") = ["tt1" ++ String CR "tt2"] /\
  linesAnyEnding ("tt1" ++ String CR "tt2") = ["tt1"; "tt2"] /\
  lines ("tt1" ++ String CR "tt2") <> linesAnyEnding ("tt1" ++ String CR "tt2") /\
  parseInput ("tt1" ++ String CR "tt2") = [mkItem ("tt1" ++ String CR "tt2") ""].
Proof. repeat split; try reflexivity. discriminate. Qed.

End ParserFacts.

(* ===================================================================== *)
(** * Properties of the orchestrator *)
(* ===================================================================== *)

Section RunFacts.
Import JS Orchestrator.
Context {W : Type} {R : Remote W}.

(** ** One iteration *)

Lemma tryItem_attempt (listId : string) (i : nat) (item : Parser.WorkItem) (w : W) :
  attempt listId i item (fst (fst (tryItem listId i item w)))
          (snd (tryItem listId i item w)).
Proof.
  unfold tryItem, bind, callAddItemToList, callUpdateDescription, ret.
  destruct (addItemToList listId (Parser.id item) w) as [[message|added] w1]; simpl.
  - apply addRejected.
  - destruct (truthy (Parser.description item)); [|apply addedOnly].
    destruct (optChain added itemId) as [remoteId|]; [|apply addedOnly].
    destruct (truthy remoteId); [|apply addedOnly].
    destruct (updateDescription listId remoteId (Parser.description item) w1)
      as [[message|[]] w2]; simpl.
    + apply annotationRejected.
    + apply annotated.
Qed.

Lemma delay_pause (opts : Opts W) (total i : nat) (w : W) :
  pause (delayMs opts) (snd (delay opts total i w)).
Proof.
  unfold delay, bind, callGetAborted, callSleep, ret.
  destruct (useDelay opts && (Z.of_nat i <? Z.of_nat total - 1)%Z); [|apply noPause].
  destruct (getAborted opts w) as [[|] w0]; simpl.
  - apply pauseSkipped.
  - apply paused.
Qed.

Lemma loop_cons (opts : Opts W) (listId : string) (total i : nat)
      (item : Parser.WorkItem) (rest : list Parser.WorkItem)
      (results : list Status) (w : W) :
  loop opts listId total i (item :: rest) results w =
  let (a, w0) := getAborted opts w in
  if a then (results, w0, [GetAborted true])
  else
    let '(status, w1, t1) := tryItem listId i item w0 in
    let '(_, w3, t3) :=
      delay opts total i (onProgress opts (i + 1) total status w1) in
    let '(out, w4, t4) :=
      loop opts listId total (S i) rest (results ++ [status]) w3 in
    (out, w4,
     GetAborted false :: t1 ++ OnProgress (i + 1) total status :: t3 ++ t4).
Proof.
  cbn [loop]. unfold bind at 1. unfold callGetAborted.
  destruct (getAborted opts w) as [[|] w0]; [reflexivity|].
  unfold bind at 1. destruct (tryItem listId i item w0) as [[status w1] t1].
  unfold bind at 1. unfold callOnProgress at 1.
  unfold bind at 1.
  destruct (delay opts total i (onProgress opts (i + 1) total status w1))
    as [[u w3] t3].
  destruct (loop opts listId total (S i) rest (results ++ [status]) w3)
    as [[out w4] t4].
  simpl. reflexivity.
Qed.

Lemma loop_iterations (opts : Opts W) (listId : string) (total : nat)
      (rest : list Parser.WorkItem) :
  forall (i : nat) (results : list Status) (w : W),
  exists new,
    fst (fst (loop opts listId total i rest results w)) = (results ++ new)%list /\
    iterations listId total (delayMs opts) i rest new
               (snd (loop opts listId total i rest results w)).
Proof.
  induction rest as [|item rest IH]; intros i results w.
  - exists []. simpl. rewrite app_nil_r. split; [reflexivity | apply exhausted].
  - rewrite loop_cons.
    destruct (getAborted opts w) as [[|] w0].
    + exists []. simpl. rewrite app_nil_r. split; [reflexivity | apply broken].
    + pose proof (tryItem_attempt listId i item w0) as Hatt.
      destruct (tryItem listId i item w0) as [[status w1] t1].
      pose proof (delay_pause opts total i (onProgress opts (i + 1) total status w1))
        as Hpause.
      destruct (delay opts total i (onProgress opts (i + 1) total status w1))
        as [[u w3] t3].
      destruct (IH (S i) (results ++ [status])%list w3) as [new [Hout Hit]].
      destruct (loop opts listId total (S i) rest (results ++ [status]) w3)
        as [[out w4] t4].
      simpl in *. exists (status :: new). split.
      * rewrite Hout, <- app_assoc. reflexivity.
      * now apply iterated.
Qed.

(** ** The unrolled loop *)

Lemma iterations_outcomes (listId : string) (total : nat) (ms : Z) (i : nat)
      (rest : list Parser.WorkItem) (new : list Status) (t : list event) :
  iterations listId total ms i rest new t ->
  (List.length new <= List.length rest)%nat /\
  map Orchestrator.id new = map Parser.id (firstn (List.length new) rest) /\
  map index new = seq i (List.length new) /\
  Forall succeededIffNoError new.
Proof.
  induction 1 as [i | i item rest | i item rest status t1 t3 new t4 Hatt Hp Hit IH].
  - repeat split; simpl; auto.
  - repeat split; simpl; auto with arith.
  - destruct IH as [Hlen [Hid [Hidx Hinv]]].
    assert (Hst : Orchestrator.id status = Parser.id item /\ index status = i /\
                  succeededIffNoError status).
    { destruct Hatt; unfold succeededIffNoError; simpl; repeat split;
        congruence. }
    destruct Hst as [Hsid [Hsidx Hsinv]].
    repeat split; simpl.
    + lia.
    + now rewrite Hsid, Hid.
    + now rewrite Hsidx, Hidx.
    + now constructor.
Qed.

Lemma iterations_calls (listId : string) (total : nat) (ms : Z) (i : nat)
      (rest : list Parser.WorkItem) (new : list Status) (t : list event) :
  iterations listId total ms i rest new t ->
  progress t = map (fun s => (index s + 1, total, s)%nat) new /\
  started t = map Orchestrator.id new /\
  failures t = map error new.
Proof.
  induction 1 as [i | i item rest | i item rest status t1 t3 new t4 Hatt Hp Hit IH].
  - repeat split.
  - repeat split.
  - destruct IH as [Hprog [Hstart Hfail]].
    destruct Hatt, Hp; simpl; rewrite Hprog, Hstart, Hfail; repeat split.
Qed.

Lemma iterations_short (listId : string) (total : nat) (ms : Z) (i : nat)
      (rest : list Parser.WorkItem) (new : list Status) (t : list event) :
  iterations listId total ms i rest new t ->
  (List.length new < List.length rest)%nat -> In (GetAborted true) t.
Proof.
  induction 1 as [i | i item rest | i item rest status t1 t3 new t4 Hatt Hp Hit IH];
    simpl; intros Hlt.
  - lia.
  - now left.
  - right. apply in_or_app. right. right. apply in_or_app. right.
    apply IH. lia.
Qed.

(** ** After a poll has returned [true] *)

Lemma polls_app (a b : list event) : polls (a ++ b) = (polls a ++ polls b)%list.
Proof.
  induction a as [|e a IH]; simpl; [reflexivity|].
  destruct e; simpl; now rewrite IH.
Qed.

Lemma started_app (a b : list event) :
  started (a ++ b) = (started a ++ started b)%list.
Proof.
  induction a as [|e a IH]; simpl; [reflexivity|].
  destruct e; simpl; now rewrite IH.
Qed.

Lemma started_cancelPolls (t : list event) : Forall cancelPoll t -> started t = [].
Proof.
  induction 1 as [|e t He _ IH]; [reflexivity|]. rewrite He. exact IH.
Qed.

Lemma progress_In (t : list event) (done total : nat) (s : Status) :
  In (done, total, s) (progress t) <-> In (OnProgress done total s) t.
Proof.
  induction t as [|e t IH]; simpl; [tauto|].
  destruct e; simpl; rewrite IH; intuition (discriminate || congruence).
Qed.

(** Where [a] holds no cancelling poll, the first one of [a ++ b] is in [b]. *)
Lemma skip_to_cancelPoll (a b before after : list event) :
  Forall (fun e => e <> GetAborted true) a ->
  (a ++ b = before ++ GetAborted true :: after)%list ->
  exists before', before = (a ++ before')%list /\
                  b = (before' ++ GetAborted true :: after)%list.
Proof.
  intros Ha. revert before.
  induction Ha as [|e a He _ IH]; intros before E; simpl in *.
  - now exists before.
  - destruct before as [|e' before]; simpl in E.
    + injection E as E _. congruence.
    + injection E as <- E. destruct (IH _ E) as [before' [-> ->]].
      now exists before'.
Qed.

Lemma attempt_no_poll (listId : string) (i : nat) (item : Parser.WorkItem)
      (status : Status) (t : list event) :
  attempt listId i item status t ->
  Forall (fun e => e <> GetAborted true) t /\ polls t = [].
Proof.
  destruct 1; split; repeat constructor; discriminate.
Qed.

Lemma iterations_all_cancelled (listId : string) (total : nat) (ms : Z) (i : nat)
      (rest : list Parser.WorkItem) (new : list Status) (t : list event) :
  iterations listId total ms i rest new t ->
  forallb (fun b => b) (polls t) = true -> Forall cancelPoll t.
Proof.
  destruct 1; simpl; intros Hall.
  - constructor.
  - repeat constructor.
  - discriminate.
Qed.

Lemma iterations_after_cancel (listId : string) (total : nat) (ms : Z) (i : nat)
      (rest : list Parser.WorkItem) (new : list Status) (t : list event) :
  iterations listId total ms i rest new t ->
  monotone (polls t) = true ->
  forall before after,
    t = (before ++ GetAborted true :: after)%list -> Forall cancelPoll after.
Proof.
  induction 1 as [i | i item rest | i item rest status t1 t3 new t4 Hatt Hp Hit IH];
    intros Hmono before after E.
  - destruct before; discriminate.
  - destruct before as [|e before]; simpl in E.
    + injection E as <-. constructor.
    + injection E as _ E. destruct before; discriminate.
  - destruct (attempt_no_poll _ _ _ _ _ Hatt) as [Hno1 Hpolls1].
    assert (Hassoc : forall (x : event) (a b : list event),
               ((x :: a ++ [OnProgress (i + 1) total status]) ++ b =
                x :: a ++ OnProgress (i + 1) total status :: b)%list).
    { intros. simpl. now rewrite <- app_assoc. }
    rewrite <- Hassoc in E.
    simpl in Hmono. rewrite polls_app, Hpolls1 in Hmono. simpl in Hmono.
    rewrite polls_app in Hmono.
    apply skip_to_cancelPoll in E.
    2:{ constructor; [discriminate|]. apply Forall_app. split; [exact Hno1|].
        repeat constructor. discriminate. }
    destruct E as [before' [_ E]].
    destruct Hp; simpl in *.
    + eapply IH; eauto.
    + assert (Hall : Forall cancelPoll (GetAborted true :: t4)).
      { constructor; [reflexivity|].
        eapply iterations_all_cancelled; eauto. }
      rewrite E in Hall. apply Forall_app in Hall as [_ Hall].
      now inversion Hall.
    + change (GetAborted false :: Sleep ms :: t4)
        with ([GetAborted false; Sleep ms] ++ t4)%list in E.
      apply skip_to_cancelPoll in E.
      2:{ repeat constructor; discriminate. }
      destruct E as [before'' [_ E]]. eapply IH; eauto.
Qed.

Lemma iterations_nth (listId : string) (total : nat) (ms : Z) (i : nat)
      (rest : list Parser.WorkItem) (new : list Status) (t : list event) :
  iterations listId total ms i rest new t ->
  forall (K : nat) (status : Status),
    nth_error new K = Some status ->
    exists item,
      nth_error rest K = Some item /\
      Orchestrator.id status = Parser.id item /\
      index status = (i + K)%nat /\
      In (OnProgress (i + K + 1) total status) t.
Proof.
  induction 1 as [i | i item rest | i item rest status t1 t3 new t4 Hatt Hp Hit IH];
    intros K s HK.
  - destruct K; discriminate.
  - destruct K; discriminate.
  - destruct K as [|K]; simpl in HK.
    + injection HK as <-. exists item. rewrite !Nat.add_0_r.
      repeat split.
      * destruct Hatt; reflexivity.
      * destruct Hatt; reflexivity.
      * right. apply in_or_app. right. now left.
    + destruct (IH K s HK) as [item' [Hitem [Hid [Hidx Hin]]]].
      exists item'. repeat split; auto.
      * lia.
      * right. apply in_or_app. right. right. apply in_or_app. right.
        replace (i + S K + 1)%nat with (S i + K + 1)%nat by lia. exact Hin.
Qed.

(** ** The whole run *)

Lemma processItems_iterations (items : list Parser.WorkItem) (opts : Opts W)
      (w : W) (listId : string) :
  getListId w = Some listId ->
  exists results w' t,
    processItems items opts w = (inr results, w', t) /\
    iterations listId (List.length items) (delayMs opts) 0 items results t.
Proof.
  intros Hid. unfold processItems. rewrite Hid.
  destruct (loop_iterations opts listId (List.length items) items 0 [] w)
    as [new [Hout Hit]].
  destruct (loop opts listId (List.length items) 0 items [] w) as [[out w'] t].
  simpl in *. subst out. now exists new, w', t.
Qed.

Lemma processItems_returned (items : list Parser.WorkItem) (opts : Opts W)
      (w : W) (results : list Status) (w' : W) (t : list event) :
  processItems items opts w = (inr results, w', t) ->
  exists listId,
    getListId w = Some listId /\
    iterations listId (List.length items) (delayMs opts) 0 items results t.
Proof.
  intros Hrun. destruct (getListId w) as [listId|] eqn:Hid.
  - exists listId. split; [reflexivity|].
    destruct (processItems_iterations items opts w listId Hid)
      as [results' [w'' [t' [Hrun' Hit]]]].
    rewrite Hrun in Hrun'. now injection Hrun' as -> _ ->.
  - unfold processItems in Hrun. rewrite Hid in Hrun. discriminate.
Qed.

(** C1, as the code has it.  When [addItemToList] returns for an item with
    a non-empty description, the response carries an item id, and
    [updateDescription] then throws, the status of the item has
    [ok = false] and [error] the message thrown; it keeps the title taken
    from the response of the add. *)
Theorem annotation_failure_fails_item
        (listId : string) (i : nat) (item : Parser.WorkItem) (w w1 w2 : W)
        (added : option ModifiedItem) (remoteId message : string) :
  addItemToList listId (Parser.id item) w = (inr added, w1) ->
  Parser.description item <> "" ->
  optChain added itemId = Some remoteId ->
  remoteId <> "" ->
  updateDescription listId remoteId (Parser.description item) w1
    = (inl message, w2) ->
  tryItem listId i item w =
    (mkStatus (Parser.id item) i false (Some message) (titleOf added item),
     w2,
     [AddItemToList listId (Parser.id item) (inr added);
      UpdateDescription listId remoteId (Parser.description item)
                        (inl message)]).
Proof.
  intros Hadd Hdesc Hid Hrid Hupd.
  unfold tryItem, bind, callAddItemToList, callUpdateDescription, ret.
  rewrite Hadd. simpl.
  assert (Ed : truthy (Parser.description item) = true)
    by (unfold truthy; apply negb_true_iff; now apply String.eqb_neq).
  assert (Er : truthy remoteId = true)
    by (unfold truthy; apply negb_true_iff; now apply String.eqb_neq).
  rewrite Ed, Hid, Er, Hupd. reflexivity.
Qed.

(** C4.  Whenever the list id resolves, [processItems] returns its
    results, whatever the remote calls do: the [error] of each result is
    the message its item's remote calls threw, [ok] is [false] exactly for
    those, and the report is shorter than the batch only when a poll of
    [getAborted] returned [true]. *)
Theorem item_failures_isolated (items : list Parser.WorkItem) (opts : Opts W)
        (w : W) (listId : string) :
  getListId w = Some listId ->
  exists results w' t,
    processItems items opts w = (inr results, w', t) /\
    map error results = failures t /\
    map ok results = map isNone (failures t) /\
    map Orchestrator.id results = started t /\
    ((List.length results < List.length items)%nat -> In (GetAborted true) t).
Proof.
  intros Hid.
  destruct (processItems_iterations items opts w listId Hid)
    as [results [w' [t [Hrun Hit]]]].
  exists results, w', t.
  destruct (iterations_calls _ _ _ _ _ _ _ Hit) as [_ [Hstart Hfail]].
  destruct (iterations_outcomes _ _ _ _ _ _ _ Hit) as [_ [_ [_ Hinv]]].
  repeat split; auto.
  - rewrite Hfail, map_map. apply map_ext_in. intros s Hs.
    rewrite Forall_forall in Hinv. specialize (Hinv s Hs).
    unfold succeededIffNoError in Hinv.
    destruct (ok s), (error s); simpl; try reflexivity.
    + destruct Hinv as [Hinv _]. now specialize (Hinv eq_refl).
    + destruct Hinv as [_ Hinv]. now specialize (Hinv eq_refl).
  - eapply iterations_short; eassumption.
Qed.

(** C10.  Every status [processItems] returns, and every status it hands
    to [onProgress], has [ok = true] exactly when its [error] is null. *)
Theorem status_ok_iff_no_error (items : list Parser.WorkItem) (opts : Opts W)
        (w : W) (results : list Status) (w' : W) (t : list event) :
  processItems items opts w = (inr results, w', t) ->
  Forall succeededIffNoError results /\
  forall (done total : nat) (status : Status),
    In (OnProgress done total status) t -> succeededIffNoError status.
Proof.
  intros Hrun. destruct (processItems_returned _ _ _ _ _ _ Hrun) as [listId [_ Hit]].
  destruct (iterations_outcomes _ _ _ _ _ _ _ Hit) as [_ [_ [_ Hinv]]].
  split; [exact Hinv|].
  intros done total status Hin. apply progress_In in Hin.
  destruct (iterations_calls _ _ _ _ _ _ _ Hit) as [Hprog _].
  rewrite Hprog in Hin. apply in_map_iff in Hin as [s [E Hs]].
  injection E as _ _ <-. rewrite Forall_forall in Hinv. now apply Hinv.
Qed.

(** C2.  In a run whose polls of [getAborted] are monotonic, after a poll
    has returned [true] nothing follows but polls that return [true]: no
    item is started.  The results are as many as the items started before
    that poll; when these are the items 0 to [K], the report has exactly
    [K + 1] statuses, and the last is the status of item [K], handed to
    [onProgress] before the poll. *)
Theorem cancellation_stops_after_current_item
        (items : list Parser.WorkItem) (opts : Opts W) (w : W)
        (results : list Status) (w' : W) (t before after : list event) (K : nat) :
  processItems items opts w = (inr results, w', t) ->
  monotone (polls t) = true ->
  t = (before ++ GetAborted true :: after)%list ->
  Forall cancelPoll after /\
  started after = [] /\
  List.length results = List.length (started before) /\
  (List.length (started before) = (K + 1)%nat ->
   List.length results = (K + 1)%nat /\
   exists item status,
     nth_error items K = Some item /\
     nth_error results K = Some status /\
     Orchestrator.id status = Parser.id item /\
     index status = K /\
     In (OnProgress (K + 1) (List.length items) status) before).
Proof.
  intros Hrun Hmono Ht.
  destruct (processItems_returned _ _ _ _ _ _ Hrun) as [listId [_ Hit]].
  pose proof (iterations_after_cancel _ _ _ _ _ _ _ Hit Hmono before after Ht)
    as Hafter.
  pose proof (started_cancelPolls after Hafter) as Hnone.
  destruct (iterations_calls _ _ _ _ _ _ _ Hit) as [_ [Hstart _]].
  assert (Hlen : List.length results = List.length (started before)).
  { rewrite <- (length_map Orchestrator.id), <- Hstart, Ht, started_app.
    simpl. rewrite Hnone, app_nil_r. reflexivity. }
  repeat split; auto.
  - congruence.
  - assert (HK : (K < List.length results)%nat) by lia.
    apply nth_error_Some in HK.
    destruct (nth_error results K) as [status|] eqn:Hnth; [|congruence].
    destruct (iterations_nth _ _ _ _ _ _ _ Hit K status Hnth)
      as [item [Hitem [Hid [Hidx Hin]]]].
    exists item, status. simpl in Hidx, Hin. repeat split; auto.
    rewrite Ht in Hin. apply in_app_or in Hin as [Hin|[Hin|Hin]].
    + exact Hin.
    + discriminate.
    + rewrite Forall_forall in Hafter. specialize (Hafter _ Hin). discriminate.
Qed.

End RunFacts.

(* ===================================================================== *)
(** * Properties of a run started from the page *)
(* ===================================================================== *)

Section PageFacts.
Import JS Orchestrator Page.
Context {W : Type} {R : Remote W} {H : Host W}.

(** C3.  When the path of the page holds no list id, [processItems]
    throws at once: the world is untouched and no call was made, remote or
    to a callback; the handler of the page gets no results to report. *)
Theorem unresolved_list_fails_first (items : list Parser.WorkItem)
        (opts : Opts W) (useDelay : bool) (delayMs : Z) (w : W) :
  getListId w = None ->
  processItems items opts w =
    (inl "Could not determine list ID from URL.", w, []) /\
  runUpload items useDelay delayMs w = (None, w, []).
Proof.
  intros Hid. unfold runUpload, processItems. rewrite Hid. split; reflexivity.
Qed.

(** ** Runs during which Cancel is not clicked *)

Section Uncancelled.
Variable I : W -> Prop.
Hypothesis I_clear : forall w, I w -> aborted w = false.
Hypothesis I_add :
  forall listId constId w, I w -> I (snd (addItemToList listId constId w)).
Hypothesis I_update :
  forall listId itemId description w,
    I w -> I (snd (updateDescription listId itemId description w)).
Hypothesis I_sleep : forall ms w, I w -> I (sleep ms w).
Hypothesis I_render :
  forall done total status w, I w -> I (render done total status w).

Lemma tryItem_uncancelled (listId : string) (i : nat)
      (item : Parser.WorkItem) (w : W) :
  I w -> I (snd (fst (tryItem listId i item w))).
Proof.
  intros Hw. unfold tryItem, bind, callAddItemToList, callUpdateDescription, ret.
  pose proof (I_add listId (Parser.id item) w Hw) as H1.
  destruct (addItemToList listId (Parser.id item) w) as [[message|added] w1];
    simpl in *; [exact H1|].
  destruct (truthy (Parser.description item)); [|exact H1].
  destruct (optChain added itemId) as [remoteId|]; [|exact H1].
  destruct (truthy remoteId); [|exact H1].
  pose proof (I_update listId remoteId (Parser.description item) w1 H1) as H2.
  destruct (updateDescription listId remoteId (Parser.description item) w1)
    as [[message|[]] w2]; exact H2.
Qed.

Lemma delay_uncancelled (useDelay : bool) (delayMs : Z) (total i : nat) (w : W) :
  I w ->
  I (snd (fst (delay (hostOpts useDelay delayMs) total i w))) /\
  ~ In (GetAborted true) (snd (delay (hostOpts useDelay delayMs) total i w)).
Proof.
  intros Hw. unfold delay, bind, callGetAborted, callSleep, ret, hostOpts.
  cbn [Orchestrator.useDelay Orchestrator.delayMs getAborted].
  destruct (useDelay && (Z.of_nat i <? Z.of_nat total - 1)%Z); simpl.
  - rewrite (I_clear w Hw). simpl. split; [now apply I_sleep|].
    intros [E|[E|[]]]; discriminate.
  - split; [exact Hw | tauto].
Qed.

Lemma loop_uncancelled (useDelay : bool) (delayMs : Z) (listId : string)
      (total : nat) (rest : list Parser.WorkItem) :
  forall (i : nat) (results : list Status) (w : W),
    I w ->
    I (snd (fst (loop (hostOpts useDelay delayMs) listId total i rest results w))) /\
    ~ In (GetAborted true)
         (snd (loop (hostOpts useDelay delayMs) listId total i rest results w)).
Proof.
  induction rest as [|item rest IH]; intros i results w Hw.
  - simpl. split; [exact Hw | tauto].
  - rewrite loop_cons.
    change (getAborted (hostOpts useDelay delayMs) w) with (aborted w, w).
    rewrite (I_clear w Hw).
    pose proof (tryItem_uncancelled listId i item w Hw) as H1.
    pose proof (tryItem_attempt listId i item w) as Hatt.
    destruct (tryItem listId i item w) as [[status w1] t1]. simpl in H1, Hatt.
    change (onProgress (hostOpts useDelay delayMs)) with render.
    pose proof (delay_uncancelled useDelay delayMs total i
                  (render (i + 1) total status w1)
                  (I_render _ _ _ _ H1)) as [H3 Hno3].
    destruct (delay (hostOpts useDelay delayMs) total i
                    (render (i + 1) total status w1)) as [[u w3] t3].
    simpl in H3, Hno3.
    destruct (IH (S i) (results ++ [status])%list w3 H3) as [H4 Hno4].
    destruct (loop (hostOpts useDelay delayMs) listId total (S i) rest
                   (results ++ [status]) w3) as [[out w4] t4].
    simpl in *. split; [exact H4|].
    intros [E|Hin]; [discriminate|].
    apply in_app_or in Hin as [Hin|[E|Hin]].
    + destruct (attempt_no_poll _ _ _ _ _ Hatt) as [Hno1 _].
      rewrite Forall_forall in Hno1. now apply (Hno1 _ Hin).
    + discriminate.
    + apply in_app_or in Hin as [Hin|Hin]; tauto.
Qed.

(** C5.  In a run during which the [aborted] flag stays clear, a batch
    of [N] items gets [N] results, one per item in the order of the
    batch, with [index] 0 to [N - 1]; [onProgress] is called exactly
    once for each, in that order, with the done counts 1 to [N] out of
    [N]; and the run is not reported as cancelled. *)
Theorem uncancelled_run_reports_all
        (items : list Parser.WorkItem) (useDelay : bool) (delayMs : Z)
        (w : W) (listId : string) :
  getListId w = Some listId ->
  I w ->
  exists results w' t,
    runUpload items useDelay delayMs w =
      (Some (mkSummary results
               (List.length (filter ok results))
               (List.length (filter (fun r => negb (ok r)) results))
               false), w', t) /\
    List.length results = List.length items /\
    map Orchestrator.id results = map Parser.id items /\
    map index results = seq 0 (List.length items) /\
    progress t =
      map (fun s => (index s + 1, List.length items, s)%nat) results /\
    List.length (progress t) = List.length items.
Proof.
  intros Hid Hw.
  destruct (processItems_iterations items (hostOpts useDelay delayMs) w listId Hid)
    as [results [w' [t [Hrun Hit]]]].
  pose proof (loop_uncancelled useDelay delayMs listId (List.length items)
                items 0 [] w Hw) as [Hw' Hno].
  assert (E : loop (hostOpts useDelay delayMs) listId (List.length items) 0
                   items [] w = (results, w', t)).
  { unfold processItems in Hrun. rewrite Hid in Hrun.
    destruct (loop (hostOpts useDelay delayMs) listId (List.length items) 0
                   items [] w) as [[out w''] t'].
    now injection Hrun as -> -> ->. }
  rewrite E in Hw', Hno. simpl in Hw', Hno.
  destruct (iterations_outcomes _ _ _ _ _ _ _ Hit) as [Hle [Hids [Hidx _]]].
  destruct (iterations_calls _ _ _ _ _ _ _ Hit) as [Hprog _].
  assert (Hlen : List.length results = List.length items).
  { destruct (Nat.eq_dec (List.length results) (List.length items)) as [|Hne];
      [assumption|].
    exfalso. apply Hno. eapply iterations_short; [eassumption | lia]. }
  exists results, w', t. repeat split.
  - unfold runUpload. rewrite Hrun. now rewrite (I_clear w' Hw').
  - exact Hlen.
  - rewrite Hids, Hlen. now rewrite firstn_all.
  - now rewrite Hidx, Hlen.
  - exact Hprog.
  - now rewrite Hprog, length_map.
Qed.

End Uncancelled.

End PageFacts.

(* ===================================================================== *)
(** * The theorems at work on the scripted page *)
(* ===================================================================== *)

Section OnTheScriptedPage.
Import JS Orchestrator Page Scenario.

(** C1, as stated, fails: the add of [tt0068646] returns, the service then
    refuses its description, and the status of the item has [ok = false]
    with the message of the refusal. *)
Lemma annotation_failure_flips_status :
  fst (fst (tryItem "ls123456789" 2 (Parser.mkItem "tt0068646" "[b")
                    (editPage None)))
    = mkStatus "tt0068646" 2 false (Some "Invalid markup") "Title tt0068646" /\
  (exists added,
     snd (tryItem "ls123456789" 2 (Parser.mkItem "tt0068646" "[b")
                  (editPage None))
     = [AddItemToList "ls123456789" "tt0068646" (inr added);
        UpdateDescription "ls123456789" "li-tt0068646" "[b"
                          (inl "Invalid markup")]) /\
  ok (fst (fst (tryItem "ls123456789" 2 (Parser.mkItem "tt0068646" "[b")
                        (editPage None)))) <> true.
Proof.
  split; [reflexivity|]. split; [eexists; reflexivity|]. discriminate.
Qed.

Lemma annotation_failure_fails_item_witness :
  tryItem "ls123456789" 2 (Parser.mkItem "tt0068646" "[b") (editPage None) =
  (mkStatus "tt0068646" 2 false (Some "Invalid markup") "Title tt0068646",
   answered (answered (editPage None)),
   [AddItemToList "ls123456789" "tt0068646"
      (inr (Some (mkModified (Some "li-tt0068646")
                    (Some (mkListItem (Some "Title tt0068646") None)))));
    UpdateDescription "ls123456789" "li-tt0068646" "[b" (inl "Invalid markup")]).
Proof.
  apply (annotation_failure_fails_item
           "ls123456789" 2 (Parser.mkItem "tt0068646" "[b")
           (editPage None) (answered (editPage None))
           (answered (answered (editPage None)))
           (Some (mkModified (Some "li-tt0068646")
                    (Some (mkListItem (Some "Title tt0068646") None))))
           "li-tt0068646" "Invalid markup").
  - reflexivity.
  - discriminate.
  - reflexivity.
  - discriminate.
  - reflexivity.
Defined.

Lemma cancellation_stops_after_current_item_witness :
  afterCancel = [GetAborted true] /\
  List.length cancelledResults = 2%nat /\
  exists item status,
    nth_error batch 1 = Some item /\
    nth_error cancelledResults 1 = Some status /\
    Orchestrator.id status = Parser.id item /\
    index status = 1%nat /\
    In (OnProgress 2 4 status) beforeCancel.
Proof.
  assert (Hrun : processItems batch (hostOpts true 5000) (editPage (Some 3)) =
                 (inr cancelledResults, snd (fst cancelledRun), snd cancelledRun))
    by reflexivity.
  assert (Hmono : monotone (polls (snd cancelledRun)) = true) by reflexivity.
  assert (Hcut : snd cancelledRun =
                 (beforeCancel ++ GetAborted true :: afterCancel)%list)
    by reflexivity.
  destruct (cancellation_stops_after_current_item
              batch (hostOpts true 5000) (editPage (Some 3))
              cancelledResults (snd (fst cancelledRun)) (snd cancelledRun)
              beforeCancel afterCancel 1 Hrun Hmono Hcut)
    as [_ [_ [_ HK]]].
  split; [reflexivity|]. apply HK. reflexivity.
Defined.

Lemma unresolved_list_fails_first_witness :
  processItems batch (hostOpts true 5000) otherPage =
    (inl "Could not determine list ID from URL.", otherPage, []) /\
  runUpload batch true 5000 otherPage = (None, otherPage, []).
Proof.
  exact (unresolved_list_fails_first batch (hostOpts true 5000) true 5000
                                     otherPage eq_refl).
Defined.

Lemma item_failures_isolated_witness :
  exists results w' t,
    processItems batch (hostOpts false 0) (editPage None) = (inr results, w', t) /\
    map error results = failures t /\
    map ok results = map isNone (failures t) /\
    map Orchestrator.id results = started t /\
    ((List.length results < List.length batch)%nat -> In (GetAborted true) t).
Proof.
  exact (item_failures_isolated batch (hostOpts false 0) (editPage None)
                                "ls123456789" eq_refl).
Defined.

Lemma status_ok_iff_no_error_witness :
  Forall succeededIffNoError cancelledResults.
Proof.
  assert (Hrun : processItems batch (hostOpts true 5000) (editPage (Some 3)) =
                 (inr cancelledResults, snd (fst cancelledRun), snd cancelledRun))
    by reflexivity.
  exact (proj1 (status_ok_iff_no_error
                  batch (hostOpts true 5000) (editPage (Some 3))
                  cancelledResults (snd (fst cancelledRun)) (snd cancelledRun)
                  Hrun)).
Defined.

Lemma uncancelled_run_reports_all_witness :
  exists results w' t,
    runUpload batch true 5000 (editPage None) =
      (Some (mkSummary results
               (List.length (filter ok results))
               (List.length (filter (fun r => negb (ok r)) results))
               false), w', t) /\
    List.length results = 4%nat /\
    map Orchestrator.id results = map Parser.id batch /\
    map index results = [0; 1; 2; 3]%nat /\
    progress t = map (fun s => (index s + 1, 4, s)%nat) results /\
    List.length (progress t) = 4%nat.
Proof.
  apply (uncancelled_run_reports_all neverClicked) with (listId := "ls123456789").
  - intros w [_ Hflag]. exact Hflag.
  - intros listId constId w [Hclick Hflag]. unfold neverClicked. simpl.
    rewrite Hclick, Hflag. split; reflexivity.
  - intros listId itemId description w [Hclick Hflag]. unfold neverClicked. simpl.
    rewrite Hclick, Hflag. split; reflexivity.
  - intros ms w Hw. exact Hw.
  - intros done total status w Hw. exact Hw.
  - reflexivity.
  - split; reflexivity.
Defined.

End OnTheScriptedPage.

(* ===================================================================== *)
(** * Further properties of the line parser *)
(* ===================================================================== *)

Section MoreParserFacts.
Import JS Parser Worded Text Template.

(** ** What [trim] leaves *)

Lemma trimStart_first (s : string) : firstIsSpace (trimStart s) = false.
Proof.
  induction s as [|c s IH]; simpl; [reflexivity|].
  destruct (isWhiteSpace c) eqn:E; [exact IH | simpl; exact E].
Qed.

Lemma trimEnd_first (s : string) :
  firstIsSpace s = false -> firstIsSpace (trimEnd s) = false.
Proof.
  destruct s as [|c s]; simpl; [reflexivity|]. intros Hc.
  destruct (trimEnd s); [rewrite Hc; simpl; exact Hc | exact Hc].
Qed.

Lemma trimEnd_last (s : string) : lastIsSpace (trimEnd s) = false.
Proof.
  induction s as [|c s IH]; simpl; [reflexivity|].
  destruct (trimEnd s) as [|c' s'] eqn:E.
  - destruct (isWhiteSpace c) eqn:Ec; simpl; [reflexivity | exact Ec].
  - exact IH.
Qed.

Lemma trim_edges (s : string) :
  firstIsSpace (trim s) = false /\ lastIsSpace (trim s) = false.
Proof.
  unfold trim. split.
  - apply trimEnd_first, trimStart_first.
  - apply trimEnd_last.
Qed.

Lemma trimStart_fixed (s : string) : firstIsSpace s = false -> trimStart s = s.
Proof. destruct s as [|c s]; simpl; [reflexivity|]. now intros ->. Qed.

Lemma trimEnd_fixed (s : string) : lastIsSpace s = false -> trimEnd s = s.
Proof.
  induction s as [|c s IH]; [reflexivity|].
  destruct s as [|c' s'].
  - simpl. now intros ->.
  - intros Hlast. change (lastIsSpace (String c (String c' s')))
      with (lastIsSpace (String c' s')) in Hlast.
    cbn [trimEnd] in IH |- *. cbn [trimEnd] in IH. rewrite (IH Hlast). reflexivity.
Qed.

Lemma trim_fixed (s : string) :
  firstIsSpace s = false -> lastIsSpace s = false -> trim s = s.
Proof.
  intros Hf Hl. unfold trim. rewrite (trimStart_fixed s Hf). now apply trimEnd_fixed.
Qed.

Lemma trim_trim (s : string) : trim (trim s) = trim s.
Proof. destruct (trim_edges s) as [Hf Hl]. now apply trim_fixed. Qed.

Lemma contains_trim (c : ascii) (s : string) :
  contains c s = false -> contains c (trim s) = false.
Proof.
  intros Hs. unfold trim.
  assert (Hstart : contains c (trimStart s) = false).
  { induction s as [|x s IH]; simpl in *; [reflexivity|].
    apply orb_false_elim in Hs as [Hx Hs].
    destruct (isWhiteSpace x); [now apply IH | simpl; now rewrite Hx, Hs]. }
  clear Hs. revert Hstart. generalize (trimStart s) as u.
  induction u as [|x u IH]; simpl; [reflexivity|]. intros Hu.
  apply orb_false_elim in Hu as [Hx Hu]. specialize (IH Hu).
  destruct (trimEnd u) as [|y u'].
  - destruct (isWhiteSpace x); simpl; [reflexivity | now rewrite Hx].
  - change (contains c (String x (String y u'))) with
      (Ascii.eqb x c || contains c (String y u')).
    now rewrite Hx, IH.
Qed.

Lemma trim_allWhiteSpace (s : string) : allWhiteSpace s = true -> trim s = "".
Proof.
  unfold trim. induction s as [|c s IH]; simpl; [reflexivity|].
  intros Hs. apply andb_prop in Hs as [Hc Hs]. rewrite Hc. now apply IH.
Qed.

(** ** The pieces between separators *)

Lemma splitOn_contains (sep : ascii) (s : string) :
  Forall (fun p => contains sep p = false) (splitOn sep s).
Proof.
  induction s as [|c s IH]; simpl.
  - repeat constructor.
  - destruct (Ascii.eqb c sep) eqn:E.
    + constructor; [reflexivity | exact IH].
    + destruct (splitOn sep s) as [|p ps].
      * repeat constructor. simpl. now rewrite E.
      * inversion IH as [|? ? Hp Hps]; subst. constructor; [|exact Hps].
        simpl. now rewrite E, Hp.
Qed.

Lemma splitOn_allWhiteSpace (sep : ascii) (s : string) :
  allWhiteSpace s = true -> Forall (fun p => allWhiteSpace p = true) (splitOn sep s).
Proof.
  induction s as [|c s IH]; simpl.
  - repeat constructor.
  - intros Hs. apply andb_prop in Hs as [Hc Hs]. specialize (IH Hs).
    destruct (Ascii.eqb c sep).
    + constructor; [reflexivity | exact IH].
    + destruct (splitOn sep s) as [|p ps].
      * repeat constructor. simpl. now rewrite Hc.
      * inversion IH as [|? ? Hp Hps]; subst. constructor; [|exact Hps].
        simpl. now rewrite Hc, Hp.
Qed.

Lemma splitOn_single (sep : ascii) (s : string) :
  contains sep s = false -> splitOn sep s = [s].
Proof.
  induction s as [|c s IH]; simpl; [reflexivity|]. intros Hs.
  apply orb_false_elim in Hs as [Hc Hs]. now rewrite Hc, (IH Hs).
Qed.

(** X1.  Every item [parseInput] returns has an [id] and a [description]
    that neither begin nor end with white space, so that trimming them
    again changes nothing. *)
Theorem items_are_trimmed (raw : string) :
  Forall (fun item =>
            firstIsSpace (id item) = false /\ lastIsSpace (id item) = false /\
            firstIsSpace (description item) = false /\
            lastIsSpace (description item) = false /\
            trim (id item) = id item /\
            trim (description item) = description item)
         (parseInput raw).
Proof.
  assert (Hline : forall line item, parseLine line = Some item ->
            exists f0 d, id item = trim f0 /\
                         (description item = trim d \/ description item = "")).
  { intros line item. unfold parseLine.
    destruct (splitCSVLine line) as [|f0 more]; [discriminate|].
    destruct (truthy (trim f0)); simpl; [|discriminate].
    intros [= <-]. simpl. exists f0.
    destruct more as [|f1 more];
      [exists ""; split; [reflexivity | now right]
      | exists f1; split; [reflexivity | now left]]. }
  apply Forall_forall. intros item Hin.
  assert (Hsrc : exists line, parseLine line = Some item).
  { unfold parseInput in Hin. destruct (lines raw) as [|first rest]; [contradiction|].
    apply dropNull_In in Hin. apply in_map_iff in Hin as [line [E _]]. now exists line. }
  destruct Hsrc as [line Hsome].
  destruct (Hline line item Hsome) as [f0 [d [Hid Hd]]].
  rewrite Hid.
  destruct (trim_edges f0) as [H1 H2].
  assert (Hdesc : firstIsSpace (description item) = false /\
                  lastIsSpace (description item) = false /\
                  trim (description item) = description item).
  { destruct Hd as [-> | ->].
    - destruct (trim_edges d) as [H3 H4]. repeat split; auto. apply trim_trim.
    - repeat split. }
  destruct Hdesc as [H3 [H4 H5]].
  repeat split; auto. apply trim_trim.
Qed.

(** X2.  Every surviving line is non-empty, holds no line feed, and neither
    begins nor ends with white space. *)
Theorem lines_are_clean (raw : string) :
  Forall (fun line =>
            line <> "" /\ contains LF line = false /\
            firstIsSpace line = false /\ lastIsSpace line = false)
         (lines raw).
Proof.
  rewrite lines_splitOn. apply Forall_forall. intros line Hin.
  apply filter_In in Hin as [Hin Htruthy].
  apply in_map_iff in Hin as [p [<- Hp]].
  pose proof (splitOn_contains LF raw) as Hno. rewrite Forall_forall in Hno.
  destruct (trim_edges p) as [H1 H2].
  repeat split; auto.
  - now apply truthy_true.
  - apply contains_trim. now apply Hno.
Qed.

(** X3.  A text made of white space only, the empty text included, has no
    surviving line and parses to no item. *)
Theorem blank_text_has_no_items (raw : string) :
  allWhiteSpace raw = true -> lines raw = [] /\ parseInput raw = [].
Proof.
  intros Hblank.
  assert (Hlines : lines raw = []).
  { rewrite lines_splitOn.
    pose proof (splitOn_allWhiteSpace LF raw Hblank) as Hall.
    induction Hall as [|p ps Hp _ IH]; [reflexivity|].
    simpl. rewrite (trim_allWhiteSpace p Hp). exact IH. }
  split; [exact Hlines|]. unfold parseInput. now rewrite Hlines.
Qed.

Lemma blank_text_has_no_items_witness :
  parseInput (String " " (String LF (String CR (String LF (String "009" "  "))))) = [].
Proof.
  exact (proj2 (blank_text_has_no_items
                  (String " " (String LF (String CR (String LF (String "009" "  ")))))
                  eq_refl)).
Defined.

(** ** Lines without a closing quote, and lines without any *)

Lemma scanCSV_plain (line : string) (fields : list string) (current : string) :
  contains quote line = false ->
  scanCSV line fields current false =
  (fields ++ match splitOn comma line with
             | p :: ps => (current ++ p)%string :: ps
             | [] => []
             end)%list.
Proof.
  revert fields current. induction line as [|c line IH]; intros fields current Hq.
  - simpl. now rewrite append_empty_r.
  - simpl in Hq. apply orb_false_elim in Hq as [Hc Hq].
    cbn [scanCSV splitOn]. rewrite Hc.
    destruct (Ascii.eqb c comma) eqn:Ek; cbn [andb negb].
    + rewrite IH by assumption. rewrite append_empty_r, <- app_assoc.
      destruct (splitOn_cons comma line) as [p [ps ->]]. reflexivity.
    + rewrite IH by assumption.
      destruct (splitOn_cons comma line) as [p [ps ->]].
      now rewrite append_snoc.
Qed.

Lemma scanCSV_open (t : string) (fields : list string) (current : string) :
  contains quote t = false ->
  scanCSV t fields current true = (fields ++ [(current ++ t)%string])%list.
Proof.
  revert current. induction t as [|c t IH]; intros current Hq.
  - simpl. now rewrite append_empty_r.
  - simpl in Hq. apply orb_false_elim in Hq as [Hc Hq].
    cbn [scanCSV]. rewrite Hc, andb_false_r.
    rewrite IH by assumption. now rewrite append_snoc.
Qed.

(** X4.  A line without any double quote is split at every comma. *)
Theorem plain_line_split_at_commas (line : string) :
  contains quote line = false ->
  splitCSVLine line = splitOn comma line.
Proof.
  intros Hq. unfold splitCSVLine. rewrite scanCSV_plain by assumption.
  destruct (splitOn_cons comma line) as [p [ps ->]]. reflexivity.
Qed.

Lemma plain_line_split_at_commas_witness :
  splitCSVLine "tt1, a ,,b" = ["tt1"; " a "; ""; "b"].
Proof.
  exact (plain_line_split_at_commas "tt1, a ,,b" eq_refl).
Defined.

(** X5.  A double quote that is never closed keeps the rest of the line in
    one field, its commas included; the quote itself is dropped. *)
Theorem open_quote_takes_rest (p t : string) :
  isBare p = true -> contains quote t = false ->
  splitCSVLine (p ++ String quote t) = [p ++ t].
Proof.
  intros Hp Ht. unfold splitCSVLine.
  rewrite scanCSV_bare by assumption.
  cbn [scanCSV]. rewrite Ascii.eqb_refl.
  replace (negb false) with true by reflexivity.
  rewrite scanCSV_open by assumption. reflexivity.
Qed.

Lemma open_quote_takes_rest_witness :
  splitCSVLine ("tt" ++ String quote "1,a,b") = ["tt1,a,b"].
Proof.
  exact (open_quote_takes_rest "tt" "1,a,b" eq_refl eq_refl).
Defined.

(** X6.  Only the first surviving line can be a header: the items of a text
    that has a surviving line, followed by a line feed and more text, are
    the items of the text followed by the items of every surviving line of
    the rest, header-like or not. *)
Theorem header_only_on_first_line (a b : string) :
  lines a <> [] ->
  parseInput (a ++ String LF b) =
  (parseInput a ++ dropNull (map parseLine (lines b)))%list.
Proof.
  intros Ha. unfold parseInput. rewrite lines_LF.
  destruct (lines a) as [|first rest]; [congruence|]. simpl.
  destruct (hasHeader first).
  - now rewrite map_app, dropNull_app.
  - simpl. rewrite map_app, dropNull_app.
    destruct (parseLine first); reflexivity.
Qed.

Lemma header_only_on_first_line_witness :
  parseInput ("tt1" ++ String LF "id,description") =
  [mkItem "tt1" ""; mkItem "id" "description"].
Proof.
  refine (header_only_on_first_line "tt1" "id,description" _). discriminate.
Defined.

(** X7.  A row of well-formed fields parses to the trimmed text of its
    first field as [id] and of its second field, if any, as [description];
    further fields are ignored, and the row gives no item when the first
    field is blank. *)
Theorem row_parses_to_first_two_fields (c : cell) (cs : list cell) :
  forallb wellFormed (c :: cs) = true ->
  parseLine (writeRow c cs) =
  if truthy (trim (cellText c))
  then Some (mkItem (trim (cellText c))
                    match cs with
                    | c1 :: _ => trim (cellText c1)
                    | [] => ""
                    end)
  else None.
Proof.
  intros Hwf. unfold parseLine, splitCSVLine.
  rewrite scanCSV_writeRow by assumption. simpl.
  destruct (truthy (trim (cellText c))); simpl; [|reflexivity].
  destruct cs; reflexivity.
Qed.

Lemma row_parses_to_first_two_fields_witness :
  parseLine (" tt1 ," ++ String quote (" a, b " ++ String quote ",c,d")) =
  Some (mkItem "tt1" "a, b").
Proof.
  exact (row_parses_to_first_two_fields
           (Bare " tt1 ") [Quoted " a, b "; Bare "c"; Bare "d"] eq_refl).
Defined.

(** ** Writing a file and reading it back *)

Lemma contains_app (c : ascii) (a b : string) :
  contains c (a ++ b) = contains c a || contains c b.
Proof.
  induction a as [|x a IH]; simpl; [reflexivity|]. now rewrite IH, orb_assoc.
Qed.

Lemma contains_LF_escapeQuotes (s : string) :
  contains LF (escapeQuotes s) = contains LF s.
Proof.
  induction s as [|c s IH]; simpl; [reflexivity|].
  destruct (Ascii.eqb_spec c quote) as [->|Hc]; simpl; now rewrite IH.
Qed.

Lemma lastIsSpace_snoc (s : string) (c : ascii) :
  lastIsSpace (s ++ String c "") = isWhiteSpace c.
Proof.
  induction s as [|x s IH]; simpl; [reflexivity|].
  destruct (s ++ String c "") eqn:E; [|exact IH].
  destruct s; discriminate.
Qed.

Lemma rowOf_line (item : WorkItem) :
  writable item -> lines (rowOf item) = [rowOf item].
Proof.
  intros [Hne [Hbare [Hid [Hlf [Hd Hdlf]]]]].
  assert (Hrow : rowOf item =
                 (id item ++ String comma (String quote (escapeQuotes (description item))))
                   ++ String quote "").
  { unfold rowOf. cbn [writeRow written]. now rewrite append_assoc. }
  assert (Hfirst : firstIsSpace (rowOf item) = false).
  { unfold rowOf. cbn [writeRow written].
    destruct (trim_edges (id item)) as [Hf _]. rewrite Hid in Hf.
    destruct (id item); [congruence | exact Hf]. }
  assert (Hlast : lastIsSpace (rowOf item) = false).
  { rewrite Hrow. now rewrite lastIsSpace_snoc. }
  assert (Hnolf : contains LF (rowOf item) = false).
  { unfold rowOf. cbn [writeRow written]. rewrite contains_app, Hlf. simpl.
    now rewrite contains_app, contains_LF_escapeQuotes, Hdlf. }
  rewrite lines_splitOn, (splitOn_single LF _ Hnolf). simpl.
  rewrite (trim_fixed _ Hfirst Hlast).
  assert (Ht : truthy (rowOf item) = true).
  { apply truthy_true. rewrite Hrow.
    destruct (id item ++ String comma (String quote (escapeQuotes (description item))));
      discriminate. }
  now rewrite Ht.
Qed.

Lemma rowOf_parsed (item : WorkItem) :
  writable item -> parseLine (rowOf item) = Some item.
Proof.
  intros [Hne [Hbare [Hid [_ [Hd _]]]]].
  unfold parseLine, splitCSVLine, rowOf.
  rewrite scanCSV_writeRow by (simpl; now rewrite Hbare).
  simpl. rewrite Hid, Hd.
  assert (Ht : truthy (id item) = true) by now apply truthy_true.
  rewrite Ht. simpl. now destruct item.
Qed.

Lemma rowsText_lines (items : list WorkItem) :
  Forall writable items ->
  forall x, lines (x ++ rowsText items) = (lines x ++ map rowOf items)%list.
Proof.
  induction 1 as [|item items Hitem _ IH]; intros x; simpl.
  - now rewrite append_empty_r, app_nil_r.
  - rewrite lines_LF, IH, (rowOf_line item Hitem). reflexivity.
Qed.

(** X8.  Writing items in the layout of the template file (the header
    line, then per item its bare id, a comma and its description between
    double quotes with the quotes doubled, lines ended by LF) and parsing
    the text gives the items back: the same items, in the same order. *)
Theorem template_round_trip (items : list WorkItem) :
  Forall writable items -> parseInput (fileOf items) = items.
Proof.
  intros Hitems. unfold parseInput, fileOf.
  rewrite (rowsText_lines items Hitems).
  change (lines "id,description") with ["id,description"].
  cbn [app]. change (hasHeader "id,description") with true. cbn iota.
  induction Hitems as [|item items Hitem _ IH]; [reflexivity|].
  simpl. rewrite (rowOf_parsed item Hitem). now rewrite IH.
Qed.

Lemma template_round_trip_witness :
  parseInput
    ("id,description" ++
     String LF ("tt0111161," ++ String quote ("He said " ++ String quote
        (String quote ("hi" ++ String quote (String quote ("," ++ String quote
        (String LF ("tt0068646," ++ String quote (String quote ""))))))))))
  = [mkItem "tt0111161"
            ("He said " ++ String quote ("hi" ++ String quote ","));
     mkItem "tt0068646" ""].
Proof.
  refine (template_round_trip
            [mkItem "tt0111161"
                    ("He said " ++ String quote ("hi" ++ String quote ","));
             mkItem "tt0068646" ""] _).
  repeat constructor; discriminate.
Defined.

(** The text [downloadTemplate] offers is the file of its one sample item. *)
Example template_text :
  fileOf [mkItem "tt0111161" "Your description here"] =
  "id,description" ++
  String LF ("tt0111161," ++ String quote ("Your description here" ++ String quote "")).
Proof. reflexivity. Qed.

End MoreParserFacts.

(* ===================================================================== *)
(** * Properties of the list id taken from the path *)
(* ===================================================================== *)

Section ListIdFacts.
Import JS Orchestrator Text.

Lemma takeDigits_split (s : string) :
  exists post,
    s = takeDigits s ++ post /\ allDigits (takeDigits s) = true /\
    startsWithDigit post = false.
Proof.
  induction s as [|c s [post [Hs [Hd Hp]]]]; simpl.
  - now exists "".
  - destruct (isDigit c) eqn:Ec.
    + exists post. simpl. rewrite Ec, Hd. repeat split; auto. now rewrite <- Hs.
    + exists (String c s). simpl. now rewrite Ec.
Qed.

Lemma takeDigits_app (ds post : string) :
  allDigits ds = true -> startsWithDigit post = false ->
  takeDigits (ds ++ post) = ds.
Proof.
  intros Hds Hpost. induction ds as [|d ds IH]; simpl in *.
  - destruct post as [|c post]; simpl in *; [reflexivity | now rewrite Hpost].
  - apply andb_prop in Hds as [Hd Hds]. now rewrite Hd, IH.
Qed.

Lemma matchListId_cons3 (c c' d : ascii) (r : string) :
  matchListId (String c (String c' (String d r))) =
  if Ascii.eqb c "l" && Ascii.eqb c' "s" && isDigit d
  then Some ("ls" ++ takeDigits (String d r))
  else matchListId (String c' (String d r)).
Proof. reflexivity. Qed.

(** The first two characters of [pre ++ "ls" ++ more] are those of
    [pre ++ "ls"]. *)
Lemma matchListId_head (c : ascii) (pre more : string) :
  matchListId (String c (pre ++ "ls")) = None ->
  matchListId (String c (pre ++ "ls" ++ more)) = matchListId (pre ++ "ls" ++ more).
Proof.
  destruct pre as [|x [|y pre]]; cbn [append]; intros Hnone.
  - rewrite matchListId_cons3.
    replace (Ascii.eqb "l" "s") with false by reflexivity.
    now rewrite andb_false_r.
  - rewrite matchListId_cons3.
    replace (isDigit "l") with false by reflexivity.
    now rewrite andb_false_r.
  - rewrite matchListId_cons3 in Hnone |- *.
    destruct (Ascii.eqb c "l" && Ascii.eqb x "s" && isDigit y); [discriminate|].
    reflexivity.
Qed.

Lemma matchListId_tail (c : ascii) (r : string) :
  matchListId (String c r) = None -> matchListId r = None.
Proof.
  cbn [matchListId]. destruct r as [|c' [|d r']]; try (intros; assumption).
  destruct (Ascii.eqb c "l" && Ascii.eqb c' "s" && isDigit d); [discriminate|].
  intros; assumption.
Qed.

(** X9.  When [getListId] finds an id, the path is some text, then the
    id, then the rest: the id is [ls] followed by at least one digit and by
    every digit that follows, and it is the first place of the path where
    [ls] is followed by a digit. *)
Theorem list_id_is_first_ls_number (path listId : string) :
  matchListId path = Some listId ->
  exists pre ds post,
    path = pre ++ "ls" ++ ds ++ post /\
    listId = "ls" ++ ds /\
    ds <> "" /\ allDigits ds = true /\ startsWithDigit post = false /\
    matchListId (pre ++ "ls") = None.
Proof.
  induction path as [|c r IH]; [discriminate|].
  intros Hm.
  assert (Hcases :
    (exists d r', r = String "s" (String d r') /\ c = "l"%char /\ isDigit d = true /\
                  listId = "ls" ++ takeDigits (String d r')) \/
    (matchListId r = Some listId /\
     forall pre more, r = pre ++ "ls" ++ more ->
       matchListId (String c (pre ++ "ls")) = matchListId (pre ++ "ls"))).
  { cbn [matchListId] in Hm. destruct r as [|c' [|d r']].
    - discriminate.
    - discriminate.
    - destruct (Ascii.eqb c "l" && Ascii.eqb c' "s" && isDigit d) eqn:E.
      + left. apply andb_prop in E as [E Hd]. apply andb_prop in E as [Hc Hc'].
        apply Ascii.eqb_eq in Hc. apply Ascii.eqb_eq in Hc'. subst c c'.
        injection Hm as <-. now exists d, r'.
      + right. split; [exact Hm|]. intros pre more Hr.
        destruct pre as [|x [|y pre]]; cbn [append] in Hr.
        * injection Hr as -> -> _. cbn [append matchListId].
          destruct (Ascii.eqb c "l"); reflexivity.
        * injection Hr as -> -> _. cbn [append matchListId].
          now rewrite E.
        * injection Hr as -> -> _. cbn [append matchListId].
          now rewrite E. }
  destruct Hcases as [[d [r' [-> [-> [Hd ->]]]]] | [Hr Hhead]].
  - destruct (takeDigits_split (String d r')) as [post [Hs [Hds Hpost]]].
    exists "", (takeDigits (String d r')), post.
    repeat split; auto.
    + cbn [append]. now rewrite <- Hs.
    + simpl. now rewrite Hd.
  - destruct (IH Hr) as [pre [ds [post [Hpath [Hid [Hne [Hds [Hpost Hfirst]]]]]]]].
    exists (String c pre), ds, post. repeat split; auto.
    + simpl. now rewrite Hpath.
    + cbn [append]. rewrite (Hhead pre (ds ++ post) Hpath). exact Hfirst.
Qed.

Lemma list_id_is_first_ls_number_witness :
  exists pre ds post,
    "/list/ls123456789/edit/" = pre ++ "ls" ++ ds ++ post /\
    "ls123456789" = "ls" ++ ds /\
    ds <> "" /\ allDigits ds = true /\ startsWithDigit post = false /\
    matchListId (pre ++ "ls") = None.
Proof.
  exact (list_id_is_first_ls_number "/list/ls123456789/edit/" "ls123456789" eq_refl).
Defined.

(** X10.  [getListId] gives null only for a path in which no [ls] is
    followed by a digit. *)
Theorem no_list_id_means_no_ls_number (path pre post : string) (d : ascii) :
  matchListId path = None ->
  path = pre ++ "ls" ++ String d post ->
  isDigit d = false.
Proof.
  revert path. induction pre as [|x pre IH]; intros path Hnone ->.
  - cbn [append matchListId] in Hnone.
    destruct (isDigit d); [discriminate | reflexivity].
  - apply (IH (pre ++ "ls" ++ String d post)); [|reflexivity].
    now apply matchListId_tail with x.
Qed.

Lemma no_list_id_means_no_ls_number_witness : isDigit "t" = false.
Proof.
  exact (no_list_id_means_no_ls_number "/title/lst/" "/title/" "/" "t"
                                       eq_refl eq_refl).
Defined.

(** X11.  A path whose first [ls] followed by a digit is followed by the
    digits [ds] and then by something that is not a digit resolves to the
    list id [ls ds]; so does every path [/list/ls<digits>/edit...] the script
    runs on. *)
Theorem ls_number_is_found (pre ds post : string) :
  matchListId (pre ++ "ls") = None ->
  ds <> "" -> allDigits ds = true -> startsWithDigit post = false ->
  matchListId (pre ++ "ls" ++ ds ++ post) = Some ("ls" ++ ds).
Proof.
  intros Hpre Hne Hds Hpost. induction pre as [|x pre IH].
  - destruct ds as [|d ds]; [congruence|].
    cbn [append matchListId]. simpl in Hds.
    apply andb_prop in Hds as [Hd Hds']. rewrite Hd. cbn [andb Ascii.eqb].
    simpl. rewrite Hd. now rewrite takeDigits_app.
  - change (matchListId (String x (pre ++ "ls")) = None) in Hpre.
    change (matchListId (String x (pre ++ "ls" ++ ds ++ post)) = Some ("ls" ++ ds)).
    rewrite (matchListId_head x pre (ds ++ post) Hpre).
    apply IH. now apply matchListId_tail with x.
Qed.

Lemma ls_number_is_found_witness :
  matchListId "/list/ls0123/edit?ref=ls9" = Some "ls0123".
Proof.
  refine (ls_number_is_found "/list/" "0123" "/edit?ref=ls9" eq_refl _ eq_refl eq_refl).
  discriminate.
Defined.

End ListIdFacts.

(* ===================================================================== *)
(** * Further properties of the orchestrator *)
(* ===================================================================== *)

Section MoreRunFacts.
Import JS Orchestrator Shape.
Context {W : Type} {R : Remote W}.

(** ** The steps of the code *)

Lemma tried_attempt (listId : string) (i : nat) (item : Parser.WorkItem)
      (status : Status) (t : list event) :
  tried listId i item status t -> attempt listId i item status t.
Proof.
  intros [w [w' E]]. pose proof (tryItem_attempt listId i item w) as H.
  now rewrite E in H.
Qed.

Lemma truthy_nonempty (s : string) : truthy s = true -> s <> "".
Proof.
  unfold truthy. destruct (String.eqb_spec s ""); simpl; congruence.
Qed.

Lemma truthy_empty (s : string) : truthy s = false -> s = "".
Proof.
  unfold truthy. destruct (String.eqb_spec s ""); simpl; congruence.
Qed.

(** The calls of one [try] block: the add alone when it throws, when the
    item has no description or when the response has no item id; otherwise
    the add and then the update, with the item id of the response. *)
Lemma tried_calls (listId : string) (i : nat) (item : Parser.WorkItem)
      (status : Status) (t : list event) :
  tried listId i item status t ->
  (exists message,
     t = [AddItemToList listId (Parser.id item) (inl message)]) \/
  (exists added,
     t = [AddItemToList listId (Parser.id item) (inr added)] /\
     (Parser.description item = "" \/ optChain added itemId = None \/
      optChain added itemId = Some "")) \/
  (exists added remoteId r,
     t = [AddItemToList listId (Parser.id item) (inr added);
          UpdateDescription listId remoteId (Parser.description item) r] /\
     optChain added itemId = Some remoteId /\ remoteId <> "" /\
     Parser.description item <> "").
Proof.
  intros [w [w' E]]. revert E.
  unfold tryItem, bind, callAddItemToList, callUpdateDescription, ret.
  destruct (addItemToList listId (Parser.id item) w) as [[message|added] w1]; simpl.
  - intros [= _ _ <-]. left. now exists message.
  - destruct (truthy (Parser.description item)) eqn:Ed.
    + destruct (optChain added itemId) as [remoteId|] eqn:Eid.
      * destruct (truthy remoteId) eqn:Er.
        -- destruct (updateDescription listId remoteId (Parser.description item) w1)
             as [[message|[]] w2]; simpl; intros [= _ _ <-];
             right; right; exists added, remoteId;
             [exists (inl message) | exists (inr tt)];
             repeat split; auto using truthy_nonempty.
        -- intros [= _ _ <-]. right. left. exists added. split; [reflexivity|].
           right. right. rewrite Eid. f_equal. now apply truthy_empty.
      * intros [= _ _ <-]. right. left. exists added. split; [reflexivity|].
        right. now left.
    + intros [= _ _ <-]. right. left. exists added. split; [reflexivity|].
      left. now apply truthy_empty.
Qed.

(** The calls of one delay step. *)
Lemma delayed_calls (opts : Opts W) (total i : nat) (t : list event) :
  delayed opts total i t ->
  ((useDelay opts = false \/ (total <= i + 1)%nat) /\ t = []) \/
  (useDelay opts = true /\ (i + 1 < total)%nat /\
   (t = [GetAborted true] \/ t = [GetAborted false; Sleep (delayMs opts)])).
Proof.
  intros [w [w' E]]. revert E.
  unfold delay, bind, callGetAborted, callSleep, ret.
  destruct (useDelay opts); simpl.
  - destruct (Z.ltb_spec (Z.of_nat i) (Z.of_nat total - 1)) as [Hlt|Hge].
    + destruct (getAborted opts w) as [[|] w0]; simpl; intros [= _ <-];
        right; repeat split; auto; lia.
    + intros [= _ <-]. left. split; [right; lia | reflexivity].
  - intros [= _ <-]. left. split; [now left | reflexivity].
Qed.

Lemma loop_unrolled (opts : Opts W) (listId : string) (total : nat)
      (rest : list Parser.WorkItem) :
  forall (i : nat) (results : list Status) (w : W),
  exists new,
    fst (fst (loop opts listId total i rest results w)) = (results ++ new)%list /\
    unrolled opts listId total i rest new
             (snd (loop opts listId total i rest results w)).
Proof.
  induction rest as [|item rest IH]; intros i results w.
  - exists []. simpl. rewrite app_nil_r. split; [reflexivity | apply stopAtEnd].
  - rewrite loop_cons.
    destruct (getAborted opts w) as [[|] w0].
    + exists []. simpl. rewrite app_nil_r. split; [reflexivity | apply stopAtPoll].
    + destruct (tryItem listId i item w0) as [[status w1] t1] eqn:Etry.
      destruct (delay opts total i (onProgress opts (i + 1) total status w1))
        as [[[] w3] t3] eqn:Edelay.
      destruct (IH (S i) (results ++ [status])%list w3) as [new [Hout Hun]].
      destruct (loop opts listId total (S i) rest (results ++ [status]) w3)
        as [[out w4] t4].
      simpl in Hout, Hun |- *. exists (status :: new). split.
      * rewrite Hout, <- app_assoc. reflexivity.
      * apply step; [exists w0, w1; exact Etry | eexists _, w3; exact Edelay
                    | exact Hun].
Qed.

Lemma processItems_unrolled (items : list Parser.WorkItem) (opts : Opts W)
      (w : W) (results : list Status) (w' : W) (t : list event) :
  processItems items opts w = (inr results, w', t) ->
  exists listId,
    getListId w = Some listId /\
    unrolled opts listId (List.length items) 0 items results t.
Proof.
  unfold processItems. destruct (getListId w) as [listId|]; [|discriminate].
  destruct (loop_unrolled opts listId (List.length items) items 0 [] w)
    as [new [Hout Hun]].
  destruct (loop opts listId (List.length items) 0 items [] w) as [[out w''] t'].
  simpl in *. intros [= <- _ <-]. exists listId. subst out. now split.
Qed.

(** X12.  In every run that returns, cancelled or not, the results are the
    statuses of a prefix of the batch, in its order, with [index] counting
    from 0, and [onProgress] was called exactly once per result, in that
    order, with the done count [index + 1] and the size of the batch. *)
Theorem results_follow_the_batch (items : list Parser.WorkItem) (opts : Opts W)
        (w : W) (results : list Status) (w' : W) (t : list event) :
  processItems items opts w = (inr results, w', t) ->
  (List.length results <= List.length items)%nat /\
  map Orchestrator.id results =
    map Parser.id (firstn (List.length results) items) /\
  map index results = seq 0 (List.length results) /\
  progress t =
    map (fun s => (index s + 1, List.length items, s)%nat) results.
Proof.
  intros Hrun. destruct (processItems_returned _ _ _ _ _ _ Hrun) as [listId [_ Hit]].
  destruct (iterations_outcomes _ _ _ _ _ _ _ Hit) as [Hle [Hid [Hidx _]]].
  destruct (iterations_calls _ _ _ _ _ _ _ Hit) as [Hprog _].
  repeat split; assumption.
Qed.

(** ** Which remote calls a run makes *)

Lemma event_in_app (a b before after : list event) (e : event) :
  (a ++ b = before ++ e :: after)%list ->
  (exists m, a = (before ++ e :: m)%list /\ after = (m ++ b)%list) \/
  (exists m, before = (a ++ m)%list /\ b = (m ++ e :: after)%list).
Proof.
  revert before. induction a as [|x a IH]; intros before E; simpl in E.
  - right. now exists before.
  - destruct before as [|y before]; simpl in E.
    + injection E as -> <-. left. now exists a.
    + injection E as <- E. destruct (IH _ E) as [[m [-> ->]] | [m [-> ->]]].
      * left. now exists m.
      * right. now exists m.
Qed.

Lemma unrolled_update (opts : Opts W) (listId : string) (total i : nat)
      (rest : list Parser.WorkItem) (new : list Status) (t : list event) :
  unrolled opts listId total i rest new t ->
  forall before e after,
    t = (before ++ e :: after)%list -> isUpdate e = true ->
    exists before' item added remoteId r,
      before = (before' ++ [AddItemToList listId (Parser.id item) (inr added)])%list /\
      e = UpdateDescription listId remoteId (Parser.description item) r /\
      In item rest /\
      optChain added itemId = Some remoteId /\ remoteId <> "" /\
      Parser.description item <> "".
Proof.
  induction 1 as [i | i item rest | i item rest status t1 t3 new t4 Htry Hdelay Hun IH];
    intros before e after E He.
  - destruct before; discriminate.
  - destruct before as [|x before]; simpl in E.
    + injection E as <- _. discriminate.
    + injection E as _ E. destruct before; discriminate.
  - destruct before as [|x before]; simpl in E.
    { injection E as <- _. discriminate. }
    injection E as <- E.
    apply event_in_app in E as [[m [Ht1 _]] | [m [-> E]]].
    + (* the update is one of the calls of this item *)
      destruct (tried_calls _ _ _ _ _ Htry)
        as [[message ->] | [[added [-> _]] | [added [remoteId [r [-> [Hid [Hr Hd]]]]]]]].
      * destruct before as [|? [|? ?]]; simpl in Ht1; try discriminate.
        injection Ht1 as <- _. discriminate.
      * destruct before as [|? [|? ?]]; simpl in Ht1; try discriminate.
        injection Ht1 as <- _. discriminate.
      * destruct before as [|? [|? [|? ?]]]; simpl in Ht1; try discriminate.
        -- injection Ht1 as <- _. discriminate.
        -- injection Ht1 as <- <- _.
           exists [GetAborted false], item, added, remoteId, r.
           repeat split; auto. now left.
    + (* the update comes after the callback of this item *)
      destruct m as [|x m]; simpl in E.
      { injection E as <- _. discriminate. }
      injection E as <- E.
      apply event_in_app in E as [[m' [Ht3 _]] | [m' [-> E]]].
      * destruct (delayed_calls _ _ _ _ Hdelay) as [[_ ->] | [_ [_ [-> | ->]]]].
        -- destruct m; discriminate.
        -- destruct m as [|? [|? ?]]; simpl in Ht3; try discriminate.
           injection Ht3 as <- _. discriminate.
        -- destruct m as [|? [|? [|? ?]]]; simpl in Ht3; try discriminate.
           ++ injection Ht3 as <- _. discriminate.
           ++ injection Ht3 as _ <- _. discriminate.
      * destruct (IH _ _ _ E He)
          as [before' [item' [added [remoteId [r [-> [-> [Hin Hrest]]]]]]]].
        exists (GetAborted false :: t1 ++ OnProgress (i + 1) total status
                  :: t3 ++ before')%list, item', added, remoteId, r.
        repeat split; try tauto.
        -- simpl. rewrite <- !app_assoc. simpl. rewrite <- !app_assoc. reflexivity.
        -- now right.
Qed.

(** X13.  [updateDescription] is only ever called directly after an
    [addItemToList] that returned, for the same list, with the item id of
    that response, which is not empty, and with the non-empty description
    of the item of the batch that was added. *)
Theorem update_follows_its_add (items : list Parser.WorkItem) (opts : Opts W)
        (w : W) (results : list Status) (w' : W) (t before after : list event)
        (e : event) :
  processItems items opts w = (inr results, w', t) ->
  t = (before ++ e :: after)%list ->
  isUpdate e = true ->
  exists listId before' item added remoteId r,
    getListId w = Some listId /\
    before = (before' ++ [AddItemToList listId (Parser.id item) (inr added)])%list /\
    e = UpdateDescription listId remoteId (Parser.description item) r /\
    In item items /\
    optChain added itemId = Some remoteId /\ remoteId <> "" /\
    Parser.description item <> "".
Proof.
  intros Hrun Ht He.
  destruct (processItems_unrolled _ _ _ _ _ _ Hrun) as [listId [Hid Hun]].
  destruct (unrolled_update _ _ _ _ _ _ _ Hun _ _ _ Ht He)
    as [before' [item [added [remoteId [r H]]]]].
  exists listId, before', item, added, remoteId, r. tauto.
Qed.

Lemma started_length (t1 t2 : list event) :
  List.length (started (t1 ++ t2)) =
  (List.length (started t1) + List.length (started t2))%nat.
Proof. now rewrite started_app, length_app. Qed.

Lemma updates_app (a b : list event) :
  updates (a ++ b) = (updates a ++ updates b)%list.
Proof.
  induction a as [|e a IH]; simpl; [reflexivity|].
  destruct e; simpl; now rewrite IH.
Qed.

Lemma sleeps_app (a b : list event) : sleeps (a ++ b) = (sleeps a ++ sleeps b)%list.
Proof.
  induction a as [|e a IH]; simpl; [reflexivity|].
  destruct e; simpl; now rewrite IH.
Qed.

(** X14.  A run makes every remote call with the list id it resolved at
    its start, adds each reported item exactly once and updates it at most
    once: nothing is retried, and a batch costs at most two remote calls
    per result. *)
Theorem one_add_one_update_per_item (items : list Parser.WorkItem) (opts : Opts W)
        (w : W) (results : list Status) (w' : W) (t : list event) (listId : string) :
  getListId w = Some listId ->
  processItems items opts w = (inr results, w', t) ->
  Forall (onList listId) t /\
  List.length (started t) = List.length results /\
  (List.length (updates t) <= List.length results)%nat.
Proof.
  intros Hid Hrun.
  destruct (processItems_unrolled _ _ _ _ _ _ Hrun) as [listId' [Hid' Hun]].
  assert (listId' = listId) by congruence. subst listId'. clear Hid Hid' Hrun.
  induction Hun as [i | i item rest | i item rest status t1 t3 new t4 Htry Hdelay Hun IH].
  - repeat split; simpl; auto.
  - repeat split; simpl; auto. repeat constructor. intros l; discriminate.
  - destruct IH as [Hon [Hst Hup]].
    assert (H1 : Forall (onList listId) t1 /\ List.length (started t1) = 1%nat /\
                 (List.length (updates t1) <= 1)%nat).
    { destruct (tried_calls _ _ _ _ _ Htry)
        as [[message ->] | [[added [-> _]] | [added [remoteId [r [-> _]]]]]];
        repeat split; simpl; auto;
        repeat constructor; intros l [= <-]; reflexivity. }
    destruct H1 as [Hon1 [Hst1 Hup1]].
    assert (H3 : Forall (onList listId) t3 /\ started t3 = [] /\ updates t3 = []).
    { destruct (delayed_calls _ _ _ _ Hdelay) as [[_ ->] | [_ [_ [-> | ->]]]];
        repeat split; repeat constructor; intros l; discriminate. }
    destruct H3 as [Hon3 [Hst3 Hup3]].
    repeat split.
    + constructor; [intros l; discriminate|].
      apply Forall_app. split; [exact Hon1|].
      constructor; [intros l; discriminate|].
      apply Forall_app. now split.
    + simpl. rewrite started_length. simpl. rewrite started_app, Hst3. simpl. lia.
    + simpl. rewrite updates_app, length_app. simpl.
      rewrite updates_app, Hup3. simpl. lia.
Qed.

(** ** Titles *)

Lemma orElse_nonempty (a : option string) (b : string) :
  b <> "" -> orElse a b <> "".
Proof.
  intros Hb. unfold orElse. destruct a as [s|]; [|exact Hb].
  destruct (truthy s) eqn:E; [now apply truthy_nonempty | exact Hb].
Qed.

Lemma titleOf_nonempty (added : option ModifiedItem) (item : Parser.WorkItem) :
  Parser.id item <> "" -> titleOf added item <> "".
Proof. intros Hid. unfold titleOf. now apply orElse_nonempty, orElse_nonempty. Qed.

Lemma iterations_titles (listId : string) (total : nat) (ms : Z) (i : nat)
      (rest : list Parser.WorkItem) (new : list Status) (t : list event) :
  iterations listId total ms i rest new t ->
  Forall (fun item => Parser.id item <> "") rest ->
  Forall (fun s => Orchestrator.id s <> "" /\
                   (ok s = true -> title s <> "") /\
                   (title s = "" -> ok s = false /\ error s <> None))
         new.
Proof.
  induction 1 as [i | i item rest | i item rest status t1 t3 new t4 Hatt Hp Hit IH];
    intros Hids; [constructor | constructor |].
  inversion Hids as [|? ? Hid Hrest]; subst.
  constructor; [|now apply IH].
  pose proof (fun added => titleOf_nonempty added item Hid) as Htitle.
  destruct Hatt; simpl; (split; [assumption|]); split; intros E;
    first [ discriminate E
          | now apply Htitle
          | exfalso; now apply (Htitle _ E)
          | split; [reflexivity | discriminate] ].
Qed.

(** X15.  For a batch whose ids are not empty, as every batch from
    [parseInput] is, every result has a non-empty [id]; a result with
    [ok = true] has a non-empty [title], and [title] is empty only where
    [ok] is false and an error is recorded. *)
Theorem successes_are_titled (items : list Parser.WorkItem) (opts : Opts W)
        (w : W) (results : list Status) (w' : W) (t : list event) :
  Forall (fun item => Parser.id item <> "") items ->
  processItems items opts w = (inr results, w', t) ->
  Forall (fun s => Orchestrator.id s <> "" /\
                   (ok s = true -> title s <> "") /\
                   (title s = "" -> ok s = false /\ error s <> None))
         results.
Proof.
  intros Hids Hrun.
  destruct (processItems_returned _ _ _ _ _ _ Hrun) as [listId [_ Hit]].
  now apply (iterations_titles _ _ _ _ _ _ _ Hit).
Qed.

(** ** Sleeping between items *)

Lemma unrolled_sleeps (opts : Opts W) (listId : string) (total i : nat)
      (rest : list Parser.WorkItem) (new : list Status) (t : list event) :
  unrolled opts listId total i rest new t ->
  (i + List.length rest = total)%nat ->
  Forall (fun ms => ms = delayMs opts) (sleeps t) /\
  (List.length (sleeps t) <= List.length new)%nat /\
  (List.length (sleeps t) <= List.length rest - 1)%nat /\
  (useDelay opts = false -> sleeps t = []).
Proof.
  induction 1 as [i | i item rest | i item rest status t1 t3 new t4 Htry Hdelay Hun IH];
    intros Hlen.
  - repeat split; simpl; auto.
  - repeat split; simpl; auto with arith.
  - simpl in Hlen. destruct IH as [Hall [Hnew [Hrest Hoff]]]; [lia|].
    assert (H1 : sleeps t1 = []).
    { destruct (tried_attempt _ _ _ _ _ Htry); reflexivity. }
    simpl. rewrite sleeps_app, H1. simpl. rewrite sleeps_app.
    destruct (delayed_calls _ _ _ _ Hdelay) as [[_ ->] | [Hon [Hlt [-> | ->]]]]; simpl.
    + repeat split; auto; lia.
    + repeat split; auto; try lia; congruence.
    + repeat split; simpl; auto; try lia; congruence.
Qed.

(** X16.  Whatever happens in a run, it sleeps only for [delayMs], at most
    once per result and at most [N - 1] times for a batch of [N] items, and
    not at all when [useDelay] is off. *)
Theorem sleeps_are_bounded (items : list Parser.WorkItem) (opts : Opts W)
        (w : W) (results : list Status) (w' : W) (t : list event) :
  processItems items opts w = (inr results, w', t) ->
  Forall (fun ms => ms = delayMs opts) (sleeps t) /\
  (List.length (sleeps t) <= List.length results)%nat /\
  (List.length (sleeps t) <= List.length items - 1)%nat /\
  (useDelay opts = false -> sleeps t = []).
Proof.
  intros Hrun.
  destruct (processItems_unrolled _ _ _ _ _ _ Hrun) as [listId [_ Hun]].
  now apply (unrolled_sleeps _ _ _ _ _ _ _ Hun).
Qed.

Lemma unrolled_uncancelled_sleeps (opts : Opts W) (listId : string) (total i : nat)
      (rest : list Parser.WorkItem) (new : list Status) (t : list event) :
  unrolled opts listId total i rest new t ->
  (i + List.length rest = total)%nat ->
  ~ In (GetAborted true) t ->
  sleeps t = (if useDelay opts
              then repeat (delayMs opts) (List.length rest - 1)
              else []) /\
  (rest <> [] ->
   exists before s, t = (before ++ [OnProgress total total s])%list).
Proof.
  induction 1 as [i | i item rest | i item rest status t1 t3 new t4 Htry Hdelay Hun IH];
    intros Hlen Hno.
  - split; [now destruct (useDelay opts) | congruence].
  - exfalso. apply Hno. now left.
  - simpl in Hlen.
    assert (Hno4 : ~ In (GetAborted true) t4).
    { intros Hin. apply Hno. right. apply in_or_app. right. right.
      apply in_or_app. now right. }
    assert (Hno3 : ~ In (GetAborted true) t3).
    { intros Hin. apply Hno. right. apply in_or_app. right. right.
      apply in_or_app. now left. }
    destruct IH as [Hs Hlast]; [lia | exact Hno4 |].
    assert (H1 : sleeps t1 = []).
    { destruct (tried_attempt _ _ _ _ _ Htry); reflexivity. }
    split.
    + simpl. rewrite sleeps_app, H1. simpl. rewrite sleeps_app, Hs.
      destruct (delayed_calls _ _ _ _ Hdelay)
        as [[[Hoff | Hend] ->] | [Hon [Hlt [-> | ->]]]]; simpl.
      * now rewrite Hoff.
      * replace (List.length rest - 0)%nat with 0%nat by lia.
        replace (List.length rest - 1)%nat with 0%nat by lia.
        now destruct (useDelay opts).
      * exfalso. apply Hno3. now left.
      * rewrite Hon. rewrite Nat.sub_0_r.
        destruct (List.length rest) as [|n] eqn:En; [lia|].
        simpl. now rewrite Nat.sub_0_r.
    + intros _. destruct rest as [|item' rest'].
      * assert (Ht4 : t4 = []) by (inversion Hun; reflexivity).
        assert (Ht3 : t3 = []).
        { destruct (delayed_calls _ _ _ _ Hdelay) as [[_ ->] | [_ [Hlt _]]];
            [reflexivity | simpl in Hlen; lia]. }
        subst t3 t4. simpl in Hlen.
        replace (i + 1)%nat with total by lia.
        exists (GetAborted false :: t1), status. reflexivity.
      * destruct Hlast as [before [s ->]]; [discriminate|].
        exists (GetAborted false :: t1 ++ OnProgress (i + 1) total status
                  :: t3 ++ before)%list, s.
        simpl. rewrite <- !app_assoc. simpl. rewrite <- !app_assoc. reflexivity.
Qed.

(** X17.  In a run in which no poll of [getAborted] returns [true], a
    batch of [N] items with [useDelay] on sleeps exactly [N - 1] times, for
    [delayMs] each time, and with [useDelay] off never; and the last call
    of the run is the [onProgress] of the last item, so no sleep follows
    it. *)
Theorem uncancelled_run_sleeps_between_items
        (items : list Parser.WorkItem) (opts : Opts W)
        (w : W) (results : list Status) (w' : W) (t : list event) :
  processItems items opts w = (inr results, w', t) ->
  ~ In (GetAborted true) t ->
  sleeps t = (if useDelay opts
              then repeat (delayMs opts) (List.length items - 1)
              else []) /\
  (items <> [] ->
   exists before s,
     t = (before ++ [OnProgress (List.length items) (List.length items) s])%list).
Proof.
  intros Hrun Hno.
  destruct (processItems_unrolled _ _ _ _ _ _ Hrun) as [listId [_ Hun]].
  now apply (unrolled_uncancelled_sleeps _ _ _ _ _ _ _ Hun).
Qed.

End MoreRunFacts.

(* ===================================================================== *)
(** * Further properties of a run started from the page *)
(* ===================================================================== *)

Section MorePageFacts.
Import JS Orchestrator Shape Page.
Context {W : Type} {R : Remote W} {H : Host W}.

(** The delay step with the [opts] of the page: the poll reads [aborted]
    and leaves the world as it is. *)
Lemma host_delay (useDelay : bool) (delayMs : Z) (total i : nat) (w : W) :
  delay (hostOpts useDelay delayMs) total i w =
  if useDelay && (Z.of_nat i <? Z.of_nat total - 1)%Z then
    if aborted w then (tt, w, [GetAborted true])
    else (tt, sleep delayMs w, [GetAborted false; Sleep delayMs])
  else (tt, w, []).
Proof.
  unfold delay, bind, callGetAborted, callSleep, ret, hostOpts.
  cbn [Orchestrator.useDelay Orchestrator.delayMs getAborted].
  destruct (useDelay && (Z.of_nat i <? Z.of_nat total - 1)%Z); [|reflexivity].
  destruct (aborted w); reflexivity.
Qed.

Lemma host_loop_cancel (useDelay : bool) (delayMs : Z) (listId : string)
      (total : nat) (rest : list Parser.WorkItem) :
  forall (i : nat) (results : list Status) (w : W),
    (i + List.length rest = total)%nat ->
    monotone (polls (snd (loop (hostOpts useDelay delayMs) listId total i rest
                               results w))) = true /\
    (In (GetAborted true)
        (snd (loop (hostOpts useDelay delayMs) listId total i rest results w)) ->
     aborted (snd (fst (loop (hostOpts useDelay delayMs) listId total i rest
                             results w))) = true /\
     (List.length (fst (fst (loop (hostOpts useDelay delayMs) listId total i rest
                                  results w)))
      < List.length results + List.length rest)%nat).
Proof.
  induction rest as [|item rest IH]; intros i results w Hlen.
  - simpl. split; [reflexivity | tauto].
  - rewrite loop_cons.
    change (getAborted (hostOpts useDelay delayMs) w) with (aborted w, w).
    destruct (aborted w) eqn:Ea.
    + simpl. split; [reflexivity|]. intros _. split; [exact Ea | lia].
    + pose proof (tryItem_attempt listId i item w) as Hatt.
      destruct (tryItem listId i item w) as [[status w1] t1]. simpl in Hatt.
      destruct (attempt_no_poll _ _ _ _ _ Hatt) as [Hno1 Hpolls1].
      change (onProgress (hostOpts useDelay delayMs)) with render.
      rewrite host_delay.
      assert (Hin1 : forall x, In (GetAborted true) (t1 ++ x) ->
                               In (GetAborted true) x).
      { intros x Hin. apply in_app_or in Hin as [Hin|Hin]; [|exact Hin].
        rewrite Forall_forall in Hno1. now destruct (Hno1 _ Hin). }
      simpl in Hlen.
      destruct (useDelay && (Z.of_nat i <? Z.of_nat total - 1)%Z) eqn:Econd.
      * apply andb_prop in Econd as [_ Hlt]. apply Z.ltb_lt in Hlt.
        destruct (aborted (render (i + 1) total status w1)) eqn:Ea2.
        -- (* the poll of the delay step sees the click: the next poll too *)
           destruct rest as [|item' rest']; [simpl in Hlen; lia|].
           rewrite loop_cons.
           change (getAborted (hostOpts useDelay delayMs)
                              (render (i + 1) total status w1))
             with (aborted (render (i + 1) total status w1),
                   render (i + 1) total status w1).
           rewrite Ea2. simpl. rewrite polls_app, Hpolls1. simpl.
           split; [reflexivity|]. intros _. split; [exact Ea2|].
           rewrite length_app. simpl. lia.
        -- destruct (IH (S i) (results ++ [status])%list
                        (sleep delayMs (render (i + 1) total status w1)))
             as [Hmono Hcancel]; [lia|].
           destruct (loop (hostOpts useDelay delayMs) listId total (S i) rest
                          (results ++ [status])
                          (sleep delayMs (render (i + 1) total status w1)))
             as [[out w4] t4].
           simpl in *. rewrite polls_app, Hpolls1. simpl. split; [exact Hmono|].
           intros [E|Hin]; [discriminate|].
           apply Hin1 in Hin. destruct Hin as [E|[E|[E|Hin]]]; try discriminate.
           destruct (Hcancel Hin) as [Hw4 Hshort]. split; [exact Hw4|].
           rewrite length_app in Hshort. simpl in Hshort. lia.
      * destruct (IH (S i) (results ++ [status])%list
                     (render (i + 1) total status w1))
          as [Hmono Hcancel]; [lia|].
        destruct (loop (hostOpts useDelay delayMs) listId total (S i) rest
                       (results ++ [status]) (render (i + 1) total status w1))
          as [[out w4] t4].
        simpl in *. rewrite polls_app, Hpolls1. simpl. split; [exact Hmono|].
        intros [E|Hin]; [discriminate|].
        apply Hin1 in Hin. destruct Hin as [E|Hin]; [discriminate|].
        destruct (Hcancel Hin) as [Hw4 Hshort]. split; [exact Hw4|].
        rewrite length_app in Hshort. simpl in Hshort. lia.
Qed.

Lemma runUpload_returned (items : list Parser.WorkItem) (useDelay : bool)
      (delayMs : Z) (w : W) (summary : Summary) (w' : W) (t : list event) :
  runUpload items useDelay delayMs w = (Some summary, w', t) ->
  exists listId,
    getListId w = Some listId /\
    loop (hostOpts useDelay delayMs) listId (List.length items) 0 items [] w
      = (results summary, w', t) /\
    succeeded summary = List.length (filter ok (results summary)) /\
    failed summary =
      List.length (filter (fun r => negb (ok r)) (results summary)) /\
    cancelled summary = aborted w'.
Proof.
  unfold runUpload, processItems.
  destruct (getListId w) as [listId|]; [|discriminate].
  destruct (loop (hostOpts useDelay delayMs) listId (List.length items) 0 items [] w)
    as [[out w''] t'] eqn:Eloop.
  intros [= <- <- <-]. exists listId. simpl. repeat split. exact Eloop.
Qed.

(** X18.  In the summary of a run, the two counts add up to the number of
    results, and the failed count is the number of results that carry an
    error message. *)
Theorem summary_counts_add_up (items : list Parser.WorkItem) (useDelay : bool)
        (delayMs : Z) (w : W) (summary : Summary) (w' : W) (t : list event) :
  runUpload items useDelay delayMs w = (Some summary, w', t) ->
  (succeeded summary + failed summary = List.length (results summary))%nat /\
  failed summary =
    List.length (filter (fun s => negb (isNone (error s))) (results summary)).
Proof.
  intros Hrun.
  destruct (runUpload_returned _ _ _ _ _ _ _ Hrun)
    as [listId [_ [Hloop [-> [-> _]]]]].
  destruct (loop_iterations (hostOpts useDelay delayMs) listId (List.length items)
                            items 0 [] w) as [new [Hout Hit]].
  rewrite Hloop in Hout, Hit. simpl in Hout, Hit. subst new.
  destruct (iterations_outcomes _ _ _ _ _ _ _ Hit) as [_ [_ [_ Hinv]]].
  clear Hloop Hit Hrun. induction Hinv as [|s l Hs _ [IH1 IH2]]; [now split|].
  simpl. unfold succeededIffNoError in Hs.
  destruct (ok s) eqn:Eok, (error s) eqn:Eerr; simpl.
  - destruct Hs as [Hs _]. now specialize (Hs eq_refl).
  - split; [lia | exact IH2].
  - split; [lia | now rewrite IH2].
  - destruct Hs as [_ Hs]. now specialize (Hs eq_refl).
Qed.

(** X19.  When a poll of a run started from the page has seen the click on
    Cancel, the run is reported as cancelled and has fewer results than the
    batch has items. *)
Theorem seen_cancel_is_reported (items : list Parser.WorkItem) (useDelay : bool)
        (delayMs : Z) (w : W) (summary : Summary) (w' : W) (t : list event) :
  runUpload items useDelay delayMs w = (Some summary, w', t) ->
  In (GetAborted true) t ->
  cancelled summary = true /\
  (List.length (results summary) < List.length items)%nat.
Proof.
  intros Hrun Hin.
  destruct (runUpload_returned _ _ _ _ _ _ _ Hrun)
    as [listId [_ [Hloop [_ [_ ->]]]]].
  destruct (host_loop_cancel useDelay delayMs listId (List.length items) items
                             0 [] w eq_refl) as [_ Hcancel].
  rewrite Hloop in Hcancel. simpl in Hcancel. now apply Hcancel.
Qed.

(** X20.  A run started from the page needs no assumption on the flag: the
    two polls of an iteration's end and of the next iteration's start read
    the same world, so once a poll has seen the click nothing follows but
    one more poll that sees it: no item is started, no callback made and
    no sleep taken. *)
Theorem page_run_stops_at_seen_cancel
        (items : list Parser.WorkItem) (useDelay : bool)
        (delayMs : Z) (w : W) (summary : Summary) (w' : W)
        (t before after : list event) :
  runUpload items useDelay delayMs w = (Some summary, w', t) ->
  t = (before ++ GetAborted true :: after)%list ->
  Forall cancelPoll after /\
  started after = [] /\ progress after = [] /\ sleeps after = [].
Proof.
  intros Hrun Ht.
  destruct (runUpload_returned _ _ _ _ _ _ _ Hrun)
    as [listId [_ [Hloop _]]].
  destruct (host_loop_cancel useDelay delayMs listId (List.length items) items
                             0 [] w eq_refl) as [Hmono _].
  destruct (loop_iterations (hostOpts useDelay delayMs) listId (List.length items)
                            items 0 [] w) as [new [_ Hit]].
  rewrite Hloop in Hmono, Hit. simpl in Hmono, Hit.
  pose proof (iterations_after_cancel _ _ _ _ _ _ _ Hit Hmono before after Ht)
    as Hafter.
  split; [exact Hafter|].
  clear - Hafter. induction Hafter as [|e l He _ [IH1 [IH2 IH3]]]; [now repeat split|].
  rewrite He. simpl. now repeat split.
Qed.

End MorePageFacts.

(* ===================================================================== *)
(** * Properties of the cookie lookup of the request headers *)
(* ===================================================================== *)

Section CookieFacts.
Import JS Text Headers.

Example cookie_examples :
  cookie "session-id" "ubid-main=1; session-id=123-456;  ci=e30" = "123-456" /\
  cookie "ci" "ubid-main=1; session-id=123-456;  ci=e30" = "e30" /\
  cookie "ci" "uci=1; xci=2" = "" /\
  cookie "ci" "" = "".
Proof. repeat split; reflexivity. Qed.

Lemma untilSemicolon_clean (s : string) :
  contains semicolon (untilSemicolon s) = false.
Proof.
  induction s as [|c s IH]; simpl; [reflexivity|].
  destruct (Ascii.eqb c semicolon) eqn:E; [reflexivity|]. simpl. now rewrite E.
Qed.

Lemma matchCookie_clean (name : string) (s : string) :
  forall atStart v,
    matchCookie atStart name s = Some v -> contains semicolon v = false.
Proof.
  assert (Hhere : forall u v, nameHere name u = Some v ->
                              contains semicolon v = false).
  { intros u v. unfold nameHere.
    destruct (stripPrefix (name ++ String equals "") u); [|discriminate].
    intros [= <-]. apply untilSemicolon_clean. }
  assert (Hspaces : forall u v, afterSpaces name u = Some v ->
                                contains semicolon v = false).
  { induction u as [|c u IH]; intros v; cbn [afterSpaces]; [apply Hhere|].
    destruct (isWhiteSpace c); [|apply Hhere].
    destruct (afterSpaces name u) as [v'|]; [|apply Hhere].
    intros [= <-]. now apply IH. }
  induction s as [|c s IH]; intros atStart v; cbn [matchCookie].
  - destruct atStart; [|discriminate].
    destruct (nameHere name "") eqn:E; [|discriminate].
    intros [= <-]. now apply Hhere with "".
  - destruct (if atStart then nameHere name (String c s) else None) as [v0|] eqn:E.
    + intros [= <-]. destruct atStart; [|discriminate]. now apply Hhere with (String c s).
    + destruct (Ascii.eqb c semicolon).
      * destruct (afterSpaces name s) as [v1|] eqn:E1.
        -- intros [= <-]. now apply Hspaces with s.
        -- apply IH.
      * apply IH.
Qed.

(** X21.  Whatever [document.cookie] holds, the value [cookie] returns
    holds no semicolon. *)
Theorem cookie_has_no_semicolon (name jar : string) :
  contains semicolon (cookie name jar) = false.
Proof.
  unfold cookie. destruct (matchCookie true name jar) as [v|] eqn:E; [|reflexivity].
  now apply matchCookie_clean with name jar true.
Qed.

(** ** Looking a name up in a jar of pairs *)

Lemma stripPrefix_key (name k r : string) :
  contains equals name = false -> contains equals k = false ->
  stripPrefix (name ++ String equals "") (k ++ String equals r) =
  if k =? name then Some r else None.
Proof.
  revert k. induction name as [|x name IH]; intros k Hn Hk.
  - destruct k as [|c k]; cbn [append stripPrefix String.eqb].
    + now rewrite Ascii.eqb_refl.
    + cbn [contains] in Hk. apply orb_false_elim in Hk as [Hc _].
      rewrite Ascii.eqb_sym. now rewrite Hc.
  - cbn [contains] in Hn. apply orb_false_elim in Hn as [Hx Hn].
    destruct k as [|c k]; cbn [append stripPrefix String.eqb].
    + now rewrite Hx.
    + cbn [contains] in Hk. apply orb_false_elim in Hk as [Hc Hk].
      rewrite (Ascii.eqb_sym c x).
      destruct (Ascii.eqb x c); [now apply IH | reflexivity].
Qed.

Lemma untilSemicolon_value (v x : string) :
  contains semicolon v = false ->
  x = "" \/ (exists r, x = String semicolon r) ->
  untilSemicolon (v ++ x) = v.
Proof.
  intros Hv Hx. induction v as [|c v IH].
  - destruct Hx as [-> | [r ->]]; reflexivity.
  - cbn [contains] in Hv. apply orb_false_elim in Hv as [Hc Hv].
    cbn [append untilSemicolon]. now rewrite Hc, IH.
Qed.

Lemma morePairs_head (pairs : list (string * string)) :
  morePairs pairs = "" \/ exists r, morePairs pairs = String semicolon r.
Proof. destruct pairs as [|p rest]; simpl; [now left | right; eauto]. Qed.

Lemma nameHere_pair (name : string) (p : string * string)
      (rest : list (string * string)) :
  contains equals name = false -> cookiePair p ->
  nameHere name (pairText p ++ morePairs rest) =
  if fst p =? name then Some (snd p) else None.
Proof.
  intros Hn [Hk [_ [_ Hv]]]. unfold nameHere, pairText.
  rewrite append_assoc. cbn [append].
  rewrite stripPrefix_key by assumption.
  destruct (fst p =? name); [|reflexivity].
  now rewrite untilSemicolon_value by (assumption || apply morePairs_head).
Qed.

Lemma nameHere_space (name : string) (c : ascii) (s : string) :
  hasSpace name = false -> isWhiteSpace c = true ->
  nameHere name (String c s) = None.
Proof.
  intros Hn Hc. unfold nameHere. destruct name as [|x name]; cbn [append stripPrefix].
  - destruct (Ascii.eqb_spec equals c) as [E|_]; [|reflexivity].
    subst c. cbv in Hc. discriminate.
  - cbn [hasSpace] in Hn. apply orb_false_elim in Hn as [Hx _].
    destruct (Ascii.eqb_spec x c) as [E|_]; [subst; congruence | reflexivity].
Qed.

Lemma pairText_first (p : string * string) (x : string) :
  cookiePair p ->
  exists c r, pairText p ++ x = String c r /\ isWhiteSpace c = false /\
              Ascii.eqb c semicolon = false.
Proof.
  intros [_ [Hsemi [Hsp _]]]. unfold pairText. destruct (fst p) as [|c k].
  - exists equals, (snd p ++ x). repeat split.
  - cbn [contains] in Hsemi. cbn [hasSpace] in Hsp.
    apply orb_false_elim in Hsemi as [Hc _]. apply orb_false_elim in Hsp as [Hw _].
    exists c, ((k ++ String equals (snd p)) ++ x). repeat split; assumption.
Qed.

Lemma matchCookie_skip (name u rest : string) :
  contains semicolon u = false ->
  matchCookie false name (u ++ rest) = matchCookie false name rest.
Proof.
  induction u as [|c u IH]; intros Hu; [reflexivity|].
  cbn [contains] in Hu. apply orb_false_elim in Hu as [Hc Hu].
  cbn [append matchCookie]. rewrite Hc. now apply IH.
Qed.

Lemma pairText_clean (p : string * string) :
  cookiePair p -> contains semicolon (pairText p) = false.
Proof.
  intros [_ [Hk [_ Hv]]]. unfold pairText. rewrite contains_app, Hk.
  cbn [contains orb]. replace (Ascii.eqb equals semicolon) with false by reflexivity.
  exact Hv.
Qed.

Lemma matchCookie_morePairs (name : string) (pairs : list (string * string)) :
  contains equals name = false -> hasSpace name = false ->
  Forall cookiePair pairs ->
  matchCookie false name (morePairs pairs) = valueOf name pairs.
Proof.
  intros Hn Hs. induction 1 as [|p rest Hp _ IH]; [reflexivity|].
  cbn [morePairs matchCookie]. rewrite Ascii.eqb_refl.
  cbn [afterSpaces]. replace (isWhiteSpace " ") with true by reflexivity.
  destruct (pairText_first p (morePairs rest) Hp) as [c [r [Hfirst [Hw _]]]].
  assert (Hafter : afterSpaces name (pairText p ++ morePairs rest) =
                   nameHere name (pairText p ++ morePairs rest)).
  { rewrite Hfirst. cbn [afterSpaces]. now rewrite Hw. }
  rewrite Hafter, (nameHere_pair name p rest Hn Hp).
  destruct p as [k v]. cbn [valueOf fst snd].
  destruct (k =? name); [reflexivity|].
  rewrite (nameHere_space name " " _ Hs eq_refl).
  change (String " " (pairText (k, v) ++ morePairs rest))
    with (String " " (pairText (k, v)) ++ morePairs rest).
  rewrite matchCookie_skip; [exact IH|].
  simpl. now apply pairText_clean.
Qed.

(** X22.  On a [document.cookie] made of [key=value] pairs joined by a
    semicolon and a space, [cookie] returns the value of the first pair
    whose key is the name asked for, and the empty string when no pair has
    that key: a key that merely ends with the name is not taken for it. *)
Theorem cookie_is_first_value (name : string) (pairs : list (string * string)) :
  contains equals name = false -> hasSpace name = false ->
  Forall cookiePair pairs ->
  cookie name (jarOf pairs) =
  match valueOf name pairs with
  | Some v => v
  | None => ""
  end.
Proof.
  intros Hn Hs Hpairs. unfold cookie.
  destruct Hpairs as [|p rest Hp Hrest].
  { cbn [jarOf matchCookie valueOf]. unfold nameHere. now destruct name. }
  cbn [jarOf].
  destruct (pairText_first p (morePairs rest) Hp) as [c [r [Hfirst [_ Hsemi]]]].
  assert (Hm : matchCookie true name (pairText p ++ morePairs rest) =
               valueOf name (p :: rest)).
  { pose proof (nameHere_pair name p rest Hn Hp) as Hhere.
    pose proof (matchCookie_skip name (pairText p) (morePairs rest)
                                 (pairText_clean p Hp)) as Hskip.
    rewrite Hfirst in Hhere, Hskip |- *.
    cbn [matchCookie] in Hskip |- *. rewrite Hsemi in Hskip |- *. rewrite Hhere.
    destruct p as [k v]. cbn [valueOf fst snd].
    destruct (k =? name); [reflexivity|].
    rewrite Hskip. now apply matchCookie_morePairs. }
  now rewrite Hm.
Qed.

Lemma cookie_is_first_value_witness :
  cookie "ci" "uci=0; session-id=123-456; ci=e30; ci=late" = "e30".
Proof.
  refine (cookie_is_first_value
            "ci" [("uci", "0"); ("session-id", "123-456"); ("ci", "e30");
                  ("ci", "late")] eq_refl eq_refl _).
  repeat constructor.
Defined.

End CookieFacts.

(* ===================================================================== *)
(** * The further theorems at work on the scripted page *)
(* ===================================================================== *)

Section MoreOnTheScriptedPage.
Import JS Orchestrator Shape Page Scenario Visits.

Lemma fullRun_returned :
  processItems batch (hostOpts true 5000) (editPage None) =
  (inr fullResults, snd (fst fullRun), snd fullRun).
Proof. reflexivity. Qed.

Lemma cancelledRun_returned :
  processItems batch (hostOpts true 5000) (editPage (Some 3)) =
  (inr cancelledResults, snd (fst cancelledRun), snd cancelledRun).
Proof. reflexivity. Qed.

Lemma cancelledUpload_returned :
  runUpload batch true 5000 (editPage (Some 3)) =
  (Some cancelledSummary, snd (fst cancelledUpload), snd cancelledUpload).
Proof. reflexivity. Qed.

Lemma pastedRun_returned :
  processItems pasted (hostOpts false 0) (editPage None) =
  (inr pastedResults, snd (fst pastedRun), snd pastedRun).
Proof. reflexivity. Qed.

Lemma lines_are_clean_witness :
  Forall (fun line =>
            line <> "" /\ Text.contains LF line = false /\
            Text.firstIsSpace line = false /\ Text.lastIsSpace line = false)
         (Parser.lines (" tt1 " ++ String CR (String LF (String LF "tt2  ")))).
Proof.
  exact (lines_are_clean (" tt1 " ++ String CR (String LF (String LF "tt2  ")))).
Defined.

Lemma results_follow_the_batch_witness :
  (List.length cancelledResults <= 4)%nat /\
  map Orchestrator.id cancelledResults = ["tt0111161"; "tt0000000"] /\
  map index cancelledResults = [0; 1]%nat /\
  map (fun p => fst p) (progress (snd cancelledRun)) = [(1, 4); (2, 4)]%nat.
Proof.
  destruct (results_follow_the_batch
              batch (hostOpts true 5000) (editPage (Some 3))
              cancelledResults (snd (fst cancelledRun)) (snd cancelledRun)
              cancelledRun_returned) as [H1 [H2 [H3 H4]]].
  split; [exact H1|]. split; [exact H2|]. split; [exact H3 | now rewrite H4].
Defined.

Lemma update_follows_its_add_witness :
  exists listId before' item added remoteId r,
    getListId (editPage None) = Some listId /\
    firstn 2 (snd fullRun) =
      (before' ++ [AddItemToList listId (Parser.id item) (inr added)])%list /\
    nth 2 (snd fullRun) (Sleep 0) =
      UpdateDescription listId remoteId (Parser.description item) r /\
    In item batch /\
    optChain added itemId = Some remoteId /\ remoteId <> "" /\
    Parser.description item <> "".
Proof.
  assert (Hcut : snd fullRun =
                 (firstn 2 (snd fullRun) ++ nth 2 (snd fullRun) (Sleep 0)
                    :: skipn 3 (snd fullRun))%list) by reflexivity.
  exact (update_follows_its_add
           batch (hostOpts true 5000) (editPage None)
           fullResults (snd (fst fullRun)) (snd fullRun)
           (firstn 2 (snd fullRun)) (skipn 3 (snd fullRun))
           (nth 2 (snd fullRun) (Sleep 0))
           fullRun_returned Hcut eq_refl).
Defined.

Lemma one_add_one_update_per_item_witness :
  Forall (onList "ls123456789") (snd fullRun) /\
  List.length (started (snd fullRun)) = 4%nat /\
  (List.length (updates (snd fullRun)) <= 4)%nat.
Proof.
  exact (one_add_one_update_per_item
           batch (hostOpts true 5000) (editPage None)
           fullResults (snd (fst fullRun)) (snd fullRun) "ls123456789"
           eq_refl fullRun_returned).
Defined.

Lemma successes_are_titled_witness :
  Forall (fun s => Orchestrator.id s <> "" /\
                   (ok s = true -> title s <> "") /\
                   (title s = "" -> ok s = false /\ error s <> None))
         pastedResults.
Proof.
  refine (successes_are_titled
            pasted (hostOpts false 0) (editPage None)
            pastedResults (snd (fst pastedRun)) (snd pastedRun)
            _ pastedRun_returned).
  repeat constructor; discriminate.
Defined.

Lemma sleeps_are_bounded_witness :
  sleeps (snd cancelledRun) = [5000%Z] /\
  (List.length (sleeps (snd cancelledRun)) <= List.length cancelledResults)%nat.
Proof.
  destruct (sleeps_are_bounded
              batch (hostOpts true 5000) (editPage (Some 3))
              cancelledResults (snd (fst cancelledRun)) (snd cancelledRun)
              cancelledRun_returned) as [_ [H2 _]].
  split; [reflexivity | exact H2].
Defined.

Lemma uncancelled_run_sleeps_between_items_witness :
  sleeps (snd fullRun) = [5000; 5000; 5000]%Z /\
  exists before s, snd fullRun = (before ++ [OnProgress 4 4 s])%list.
Proof.
  assert (Hno : ~ In (GetAborted true) (snd fullRun)).
  { intros Hin. vm_compute in Hin.
    repeat (destruct Hin as [Hin|Hin]; [discriminate Hin|]). exact Hin. }
  destruct (uncancelled_run_sleeps_between_items
              batch (hostOpts true 5000) (editPage None)
              fullResults (snd (fst fullRun)) (snd fullRun)
              fullRun_returned Hno) as [H1 H2].
  split; [exact H1|]. apply H2. discriminate.
Defined.

Lemma summary_counts_add_up_witness :
  (succeeded cancelledSummary + failed cancelledSummary = 2)%nat /\
  failed cancelledSummary = 1%nat.
Proof.
  exact (summary_counts_add_up batch true 5000 (editPage (Some 3))
                               cancelledSummary (snd (fst cancelledUpload))
                               (snd cancelledUpload) cancelledUpload_returned).
Defined.

Lemma seen_cancel_is_reported_witness :
  cancelled cancelledSummary = true /\
  (List.length (results cancelledSummary) < 4)%nat.
Proof.
  refine (seen_cancel_is_reported batch true 5000 (editPage (Some 3))
                                  cancelledSummary (snd (fst cancelledUpload))
                                  (snd cancelledUpload) cancelledUpload_returned _).
  vm_compute. do 9 right. now left.
Defined.

Lemma page_run_stops_at_seen_cancel_witness :
  Forall cancelPoll afterCancel /\
  started afterCancel = [] /\ progress afterCancel = [] /\ sleeps afterCancel = [].
Proof.
  exact (page_run_stops_at_seen_cancel
           batch true 5000 (editPage (Some 3))
           cancelledSummary (snd (fst cancelledUpload)) (snd cancelledUpload)
           beforeCancel afterCancel cancelledUpload_returned eq_refl).
Defined.

End MoreOnTheScriptedPage.
